(** * Pokemon Wordle: the guess-feedback engine and the game-session handlers

    A shallow embedding of the server handlers [makeGuess]
    (handlers/make_guess.ts) and [getGameSession]
    (handlers/get_game_session.ts) over a list model of the four
    PostgreSQL tables declared in db/schema.ts.

    Conventions of the model
    - a table is the list of its rows in storage order; a [select]
      without ORDER BY returns rows in that order, an inner join is the
      nested loop over the joined tables, [insert] appends a row;
    - SQL [integer] columns and JS numbers holding them are [Z];
    - [varchar]/[text] are [string], nullable columns are [option];
    - timestamps are [Z]; the clock read by [new Date()] and by the
      column default [defaultNow()] is an explicit argument [now];
    - a handler is a computation in a state-and-error monad over the
      database: it returns either a thrown error or a value, together
      with the database it leaves behind. *)

From Stdlib Require Import ZArith List String Ascii Bool Lia.
From Stdlib Require Import Sorting.Sorted Sorting.Permutation.
Import ListNotations.

Local Open Scope string_scope.
Local Open Scope Z_scope.

(** ** Rows of the tables (db/schema.ts) *)

Record Pokemon := mkPokemon {
  pk_id : Z;
  pk_name : string;
  pk_type1 : string;
  pk_type2 : option string;
  pk_evolution_count : Z;
  pk_is_final_evolution : bool;
  pk_color : string;
  pk_habitat : option string;
  pk_generation : Z;
  pk_sprite_url : string;
  pk_created_at : Z
}.

Record DailyPokemon := mkDailyPokemon {
  dp_id : Z;
  dp_date : string;
  dp_pokemon_id : Z;
  dp_created_at : Z
}.

Record GameSession := mkGameSession {
  gs_id : Z;
  gs_session_id : string;
  gs_daily_pokemon_id : Z;
  gs_max_guesses : Z;
  gs_current_guesses : Z;
  gs_is_completed : bool;
  gs_is_won : bool;
  gs_created_at : Z;
  gs_completed_at : option Z
}.

Record GameGuess := mkGameGuess {
  gg_id : Z;
  gg_session_id : string;
  gg_guess_number : Z;
  gg_guessed_pokemon_id : Z;
  gg_is_correct : bool;
  gg_created_at : Z
}.

(** ** Feedback (schema.ts, [guessFeedbackSchema]) *)

(** The four string literals the feedback fields range over. *)
Inductive Verdict := correct | incorrect | higher | lower.

Record GuessFeedback := mkGuessFeedback {
  fb_type1 : Verdict;
  fb_type2 : Verdict;
  fb_evolution_count : Verdict;
  fb_is_final_evolution : Verdict;
  fb_color : Verdict;
  fb_habitat : Verdict;
  fb_generation : Verdict
}.

(** [===] on a nullable string column: [null === null] holds, a string
    never equals [null]. *)
Definition nullable_eqb (a b : option string) : bool :=
  match a, b with
  | Some x, Some y => String.eqb x y
  | None, None => true
  | _, _ => false
  end.

(** The object literal built inside [guessResults.map] in [makeGuess]:
    [pokemon.x < targetPokemon.x ? 'higher' : 'lower'] once equality has
    been ruled out. *)
Definition makeGuess_feedback (pokemon targetPokemon : Pokemon) : GuessFeedback :=
  {| fb_type1 :=
       if String.eqb (pk_type1 pokemon) (pk_type1 targetPokemon)
       then correct else incorrect;
     fb_type2 :=
       if nullable_eqb (pk_type2 pokemon) (pk_type2 targetPokemon)
       then correct else incorrect;
     fb_evolution_count :=
       if pk_evolution_count pokemon =? pk_evolution_count targetPokemon
       then correct
       else if pk_evolution_count pokemon <? pk_evolution_count targetPokemon
            then higher else lower;
     fb_is_final_evolution :=
       if Bool.eqb (pk_is_final_evolution pokemon)
                   (pk_is_final_evolution targetPokemon)
       then correct else incorrect;
     fb_color :=
       if String.eqb (pk_color pokemon) (pk_color targetPokemon)
       then correct else incorrect;
     fb_habitat :=
       if nullable_eqb (pk_habitat pokemon) (pk_habitat targetPokemon)
       then correct else incorrect;
     fb_generation :=
       if pk_generation pokemon =? pk_generation targetPokemon
       then correct
       else if pk_generation pokemon <? pk_generation targetPokemon
            then higher else lower |}.

(** [generateFeedback] of get_game_session.ts:
    [guessed.x > target.x ? 'lower' : 'higher'] once equality has been
    ruled out. *)
Definition generateFeedback (guessedPokemon targetPokemon : Pokemon) : GuessFeedback :=
  {| fb_type1 :=
       if String.eqb (pk_type1 guessedPokemon) (pk_type1 targetPokemon)
       then correct else incorrect;
     fb_type2 :=
       if nullable_eqb (pk_type2 guessedPokemon) (pk_type2 targetPokemon)
       then correct else incorrect;
     fb_evolution_count :=
       if pk_evolution_count guessedPokemon =? pk_evolution_count targetPokemon
       then correct
       else if pk_evolution_count guessedPokemon >? pk_evolution_count targetPokemon
            then lower else higher;
     fb_is_final_evolution :=
       if Bool.eqb (pk_is_final_evolution guessedPokemon)
                   (pk_is_final_evolution targetPokemon)
       then correct else incorrect;
     fb_color :=
       if String.eqb (pk_color guessedPokemon) (pk_color targetPokemon)
       then correct else incorrect;
     fb_habitat :=
       if nullable_eqb (pk_habitat guessedPokemon) (pk_habitat targetPokemon)
       then correct else incorrect;
     fb_generation :=
       if pk_generation guessedPokemon =? pk_generation targetPokemon
       then correct
       else if pk_generation guessedPokemon >? pk_generation targetPokemon
            then lower else higher |}.

(** All seven verdicts are ['correct']. *)
Definition all_correct (f : GuessFeedback) : Prop :=
  fb_type1 f = correct /\ fb_type2 f = correct /\
  fb_evolution_count f = correct /\ fb_is_final_evolution f = correct /\
  fb_color f = correct /\ fb_habitat f = correct /\ fb_generation f = correct.

(** The pair of the scenario: pikachu is the target, charizard the guess
    (the rows of [createTestPokemon] in get_game_session.test.ts). *)
Definition pikachu : Pokemon :=
  mkPokemon 1 "pikachu" "electric" None 2 false "yellow" (Some "forest") 1
            "https://example.com/pikachu.png" 0.

Definition charizard : Pokemon :=
  mkPokemon 2 "charizard" "fire" (Some "flying") 3 true "red" (Some "mountain") 1
            "https://example.com/charizard.png" 0.

(** ** The database *)

(** The four tables, each in storage order, and the [serial] sequence
    that numbers the rows of [game_guess]. *)
Record DB := mkDB {
  pokemonTable : list Pokemon;
  dailyPokemonTable : list DailyPokemon;
  gameSessionTable : list GameSession;
  gameGuessTable : list GameGuess;
  game_guess_id_seq : Z
}.

(** A row of the three-table join [game_session |><| daily_pokemon |><| pokemon]. *)
Record SessionRow := mkSessionRow {
  sr_game_session : GameSession;
  sr_daily_pokemon : DailyPokemon;
  sr_pokemon : Pokemon
}.

(** A row of the join [game_guess |><| pokemon]. *)
Record GuessRow := mkGuessRow {
  gr_game_guess : GameGuess;
  gr_pokemon : Pokemon
}.

(** ** Handler results (schema.ts, [gameStateSchema]) *)

Record GuessEntry := mkGuessEntry {
  ge_guess : GameGuess;
  ge_pokemon : Pokemon;
  ge_feedback : GuessFeedback
}.

Record GameState := mkGameState {
  session : GameSession;
  target_pokemon : option Pokemon;
  guesses : list GuessEntry;
  can_guess : bool
}.

Record MakeGuessInput := mkMakeGuessInput {
  mg_session_id : string;
  pokemon_name : string
}.

Record GetGameSessionInput := mkGetGameSessionInput {
  gi_session_id : string
}.

(** ** The handler monad *)

(** The errors the handlers throw, named after their messages.
    [TypeError] is what reading a property of [undefined] raises. *)
Inductive Error :=
| Game_session_not_found
| Game_session_is_already_completed
| Maximum_guesses_reached
| Pokemon_not_found
| TypeError.

Inductive Outcome (A : Type) :=
| Thrown (e : Error)
| Returned (a : A).
Arguments Thrown {A} e.
Arguments Returned {A} a.

Definition Handler (A : Type) : Type := DB -> Outcome A * DB.

Definition ret {A} (a : A) : Handler A := fun db => (Returned a, db).

Definition throw {A} (e : Error) : Handler A := fun db => (Thrown e, db).

Definition bind {A B} (m : Handler A) (k : A -> Handler B) : Handler B :=
  fun db =>
    match m db with
    | (Returned a, db') => k a db'
    | (Thrown e, db') => (Thrown e, db')
    end.

Declare Scope handler_scope.
Delimit Scope handler_scope with handler.
Notation "x <- m ;; k" := (bind m (fun x => k))
  (at level 61, m at next level, right associativity) : handler_scope.
Notation "m ;;; k" := (bind m (fun _ => k))
  (at level 61, right associativity) : handler_scope.

(** ** Queries *)

(** [select().from(gameSessionTable)
      .innerJoin(dailyPokemonTable, eq(game_session.daily_pokemon_id, daily_pokemon.id))
      .innerJoin(pokemonTable, eq(daily_pokemon.pokemon_id, pokemon.id))
      .where(eq(game_session.session_id, sid))] *)
Definition session_join (db : DB) (sid : string) : list SessionRow :=
  flat_map (fun s =>
    flat_map (fun d =>
      map (fun p => mkSessionRow s d p)
          (filter (fun p => dp_pokemon_id d =? pk_id p) (pokemonTable db)))
      (filter (fun d => gs_daily_pokemon_id s =? dp_id d) (dailyPokemonTable db)))
    (filter (fun s => String.eqb (gs_session_id s) sid) (gameSessionTable db)).

Definition select_session_with_target (sid : string) : Handler (list SessionRow) :=
  fun db => (Returned (session_join db sid), db).

(** [select().from(pokemonTable).where(eq(pokemon.name, n))] *)
Definition select_pokemon_by_name (n : string) : Handler (list Pokemon) :=
  fun db => (Returned (filter (fun p => String.eqb (pk_name p) n) (pokemonTable db)), db).

(** [select().from(gameSessionTable).where(eq(game_session.session_id, sid))] *)
Definition select_game_session (sid : string) : Handler (list GameSession) :=
  fun db =>
    (Returned (filter (fun s => String.eqb (gs_session_id s) sid) (gameSessionTable db)), db).

(** [select().from(gameGuessTable)
      .innerJoin(pokemonTable, eq(game_guess.guessed_pokemon_id, pokemon.id))
      .where(eq(game_guess.session_id, sid))] *)
Definition guess_join (db : DB) (sid : string) : list GuessRow :=
  flat_map (fun g =>
    map (fun p => mkGuessRow g p)
        (filter (fun p => gg_guessed_pokemon_id g =? pk_id p) (pokemonTable db)))
    (filter (fun g => String.eqb (gg_session_id g) sid) (gameGuessTable db)).

Definition select_guesses_with_pokemon (sid : string) : Handler (list GuessRow) :=
  fun db => (Returned (guess_join db sid), db).

(** [insert(gameGuessTable).values({session_id, guess_number,
    guessed_pokemon_id, is_correct})]: [id] comes from the serial
    sequence, [created_at] from [defaultNow()]. *)
Definition insert_game_guess (now : Z) (sid : string) (guess_number : Z)
    (guessed_pokemon_id : Z) (is_correct : bool) : Handler unit :=
  fun db =>
    let row := mkGameGuess (game_guess_id_seq db) sid guess_number
                           guessed_pokemon_id is_correct now in
    (Returned tt,
     mkDB (pokemonTable db) (dailyPokemonTable db) (gameSessionTable db)
          (gameGuessTable db ++ [row]) (game_guess_id_seq db + 1)).

(** The [set] clause of the update in [makeGuess] applied to one row. *)
Definition set_progress (current_guesses : Z) (is_completed is_won : bool)
    (completed_at : option Z) (s : GameSession) : GameSession :=
  mkGameSession (gs_id s) (gs_session_id s) (gs_daily_pokemon_id s)
                (gs_max_guesses s) current_guesses is_completed is_won
                (gs_created_at s) completed_at.

(** [update(gameSessionTable).set({current_guesses, is_completed, is_won,
    completed_at}).where(eq(game_session.session_id, sid))]: every row
    with that [session_id] is rewritten in place. *)
Definition update_game_session (sid : string) (current_guesses : Z)
    (is_completed is_won : bool) (completed_at : option Z) : Handler unit :=
  fun db =>
    (Returned tt,
     mkDB (pokemonTable db) (dailyPokemonTable db)
          (map (fun s => if String.eqb (gs_session_id s) sid
                         then set_progress current_guesses is_completed is_won
                                           completed_at s
                         else s)
               (gameSessionTable db))
          (gameGuessTable db) (game_guess_id_seq db)).

(** ** String.prototype.toLowerCase *)

(** On the ASCII letters; bytes outside [A-Z] are kept as they are
    (JS also folds non-ASCII letters, which a byte string does not
    represent). *)
Definition ascii_toLowerCase (c : ascii) : ascii :=
  let n := nat_of_ascii c in
  if ((65 <=? n) && (n <=? 90))%nat then ascii_of_nat (n + 32) else c.

Fixpoint toLowerCase (s : string) : string :=
  match s with
  | EmptyString => EmptyString
  | String c s' => String (ascii_toLowerCase c) (toLowerCase s')
  end.

(** ** makeGuess (handlers/make_guess.ts) *)

Local Open Scope handler_scope.

Definition makeGuess (now : Z) (input : MakeGuessInput) : Handler GameState :=
  gameSessionResults <- select_session_with_target (mg_session_id input) ;;
  match gameSessionResults with
  | [] => throw Game_session_not_found
  | sessionData :: _ =>
    let session := sr_game_session sessionData in
    let targetPokemon := sr_pokemon sessionData in
    if gs_is_completed session then throw Game_session_is_already_completed
    else if gs_current_guesses session >=? gs_max_guesses session
    then throw Maximum_guesses_reached
    else
      guessedPokemonResults <-
        select_pokemon_by_name (toLowerCase (pokemon_name input)) ;;
      match guessedPokemonResults with
      | [] => throw Pokemon_not_found
      | guessedPokemon :: _ =>
        let isCorrect := pk_id guessedPokemon =? pk_id targetPokemon in
        let newGuessNumber := gs_current_guesses session + 1 in
        let isGameComplete :=
          isCorrect || (newGuessNumber >=? gs_max_guesses session) in
        insert_game_guess now (mg_session_id input) newGuessNumber
                          (pk_id guessedPokemon) isCorrect ;;;
        update_game_session (mg_session_id input) newGuessNumber
                            isGameComplete isCorrect
                            (if isGameComplete then Some now else None) ;;;
        updatedSessionResults <- select_game_session (mg_session_id input) ;;
        guessResults <- select_guesses_with_pokemon (mg_session_id input) ;;
        let guessesWithFeedback :=
          map (fun result =>
                 mkGuessEntry (gr_game_guess result) (gr_pokemon result)
                   (makeGuess_feedback (gr_pokemon result) targetPokemon))
              guessResults in
        match updatedSessionResults with
        | [] => throw TypeError
        | updatedSession :: _ =>
          ret {| session := updatedSession;
                 target_pokemon :=
                   if gs_is_completed updatedSession
                   then Some targetPokemon else None;
                 guesses := guessesWithFeedback;
                 can_guess := negb (gs_is_completed updatedSession) |}
        end
      end
  end.

(** ** getGameSession (handlers/get_game_session.ts) *)

(** The comparator passed to [sort]:
    [(a, b) => a.guess.guess_number - b.guess.guess_number]. *)
Definition by_guess_number (a b : GuessEntry) : Z :=
  gg_guess_number (ge_guess a) - gg_guess_number (ge_guess b).

(** [Array.prototype.sort] is a stable sort; whichever algorithm the
    engine runs, its result is the one of this insertion sort, which
    puts an element before the first later element that does not
    compare below it. *)
Fixpoint sort_insert (cmp : GuessEntry -> GuessEntry -> Z)
    (x : GuessEntry) (l : list GuessEntry) : list GuessEntry :=
  match l with
  | [] => [x]
  | y :: l' => if cmp x y <=? 0 then x :: y :: l'
               else y :: sort_insert cmp x l'
  end.

Fixpoint sort (cmp : GuessEntry -> GuessEntry -> Z)
    (l : list GuessEntry) : list GuessEntry :=
  match l with
  | [] => []
  | x :: l' => sort_insert cmp x (sort cmp l')
  end.

Definition getGameSession (input : GetGameSessionInput) : Handler GameState :=
  sessionResults <- select_session_with_target (gi_session_id input) ;;
  match sessionResults with
  | [] => throw Game_session_not_found
  | sessionData :: _ =>
    let session := sr_game_session sessionData in
    let targetPokemon := sr_pokemon sessionData in
    guessResults <- select_guesses_with_pokemon (gi_session_id input) ;;
    let guesses :=
      map (fun result =>
             mkGuessEntry (gr_game_guess result) (gr_pokemon result)
               (generateFeedback (gr_pokemon result) targetPokemon))
          guessResults in
    let guesses := sort by_guess_number guesses in
    let canGuess :=
      negb (gs_is_completed session)
      && (gs_current_guesses session <? gs_max_guesses session) in
    ret {| session := session;
           target_pokemon :=
             if gs_is_completed session then Some targetPokemon else None;
           guesses := guesses;
           can_guess := canGuess |}
  end.

Local Close Scope handler_scope.

(** ** Session states and the store invariant *)

(** [Active] is the state of a session that is not completed. *)
Definition Active (s : GameSession) : Prop := gs_is_completed s = false.

Definition Completed_Won (s : GameSession) : Prop :=
  gs_is_completed s = true /\ gs_is_won s = true /\ gs_completed_at s <> None.

Definition Completed_Lost (s : GameSession) : Prop :=
  gs_is_completed s = true /\ gs_is_won s = false /\ gs_completed_at s <> None.

(** The sequence numbers stored for a session, in storage order. *)
Definition guess_numbers (db : DB) (sid : string) : list Z :=
  map gg_guess_number
      (filter (fun g => String.eqb (gg_session_id g) sid) (gameGuessTable db)).

(** [l] lists exactly the numbers [1..n], each once. *)
Definition dense (l : list Z) (n : Z) : Prop :=
  NoDup l /\ forall k, In k l <-> 1 <= k <= n.

(** The invariant of one session row of the store. *)
Definition session_invariant (db : DB) (s : GameSession) : Prop :=
  gs_current_guesses s <= gs_max_guesses s /\
  (gs_is_won s = true -> gs_is_completed s = true) /\
  (gs_completed_at s <> None <-> gs_is_completed s = true) /\
  dense (guess_numbers db (gs_session_id s)) (gs_current_guesses s).

Definition store_invariant (db : DB) : Prop :=
  forall s, In s (gameSessionTable db) -> session_invariant db s.

(** What the data model asks of every store: a session identifier names
    one session, and the count of guesses of a session is a non-negative
    integer ([current_guesses] in [gameSessionSchema]). *)
Definition unique_session_ids (db : DB) : Prop :=
  NoDup (map gs_session_id (gameSessionTable db)).

Definition well_formed_store (db : DB) : Prop :=
  unique_session_ids db /\
  forall s, In s (gameSessionTable db) -> 0 <= gs_current_guesses s.

(** The sequence numbers of a view's guesses, as listed. *)
Definition view_guess_numbers (v : GameState) : list Z :=
  map (fun e => gg_guess_number (ge_guess e)) (guesses v).

(** ** What the handlers read first *)

(** [gameSessionResults[0]]: the session and its target, when the join
    has a row. *)
Definition find_session (db : DB) (sid : string) : option SessionRow :=
  hd_error (session_join db sid).

(** [guessedPokemonResults[0]]: the catalog row the guessed name
    resolves to. *)
Definition resolve_candidate (db : DB) (name : string) : option Pokemon :=
  hd_error (filter (fun p => String.eqb (pk_name p) (toLowerCase name))
                   (pokemonTable db)).

(** The rows of [game_session] carrying a session identifier. *)
Definition stored_sessions (db : DB) (sid : string) : list GameSession :=
  filter (fun s => String.eqb (gs_session_id s) sid) (gameSessionTable db).

(** ** Example stores, after the fixtures of the test suites *)

Definition daily_pikachu : DailyPokemon := mkDailyPokemon 1 "2024-01-01" 1 0.

Definition example_session (max_guesses current_guesses : Z)
    (is_completed is_won : bool) (completed_at : option Z) : GameSession :=
  mkGameSession 1 "test-session-123" 1 max_guesses current_guesses
                is_completed is_won 0 completed_at.

Definition example_guess (id guess_number : Z) : GameGuess :=
  mkGameGuess id "test-session-123" guess_number 2 false 0.

(** A fresh session of six guesses on pikachu. *)
Definition db_fresh : DB :=
  mkDB [pikachu; charizard] [daily_pikachu]
       [example_session 6 0 false false None] [] 1.

(** One guess left out of two. *)
Definition db_last_chance : DB :=
  mkDB [pikachu; charizard] [daily_pikachu]
       [example_session 2 1 false false None] [example_guess 1 1] 2.

(** A session already won. *)
Definition db_won : DB :=
  mkDB [pikachu; charizard] [daily_pikachu]
       [example_session 6 1 true true (Some 5)]
       [mkGameGuess 1 "test-session-123" 1 1 true 5] 2.

(** The row written by the test 'should throw error when max guesses
    exceeded': the count is at the maximum and the session is not marked
    completed. *)
Definition db_exhausted : DB :=
  mkDB [pikachu; charizard] [daily_pikachu]
       [example_session 6 6 false false None] [] 1.

(** Two guesses whose storage order is not their sequence order, as in
    the test 'should sort guesses by guess number'. *)
Definition db_reordered : DB :=
  mkDB [pikachu; charizard] [daily_pikachu]
       [example_session 6 2 false false None]
       [example_guess 1 2; example_guess 2 1] 3.

Definition guess_charizard : MakeGuessInput :=
  mkMakeGuessInput "test-session-123" "Charizard".

Definition guess_pikachu : MakeGuessInput :=
  mkMakeGuessInput "test-session-123" "pikachu".

Definition guess_missingno : MakeGuessInput :=
  mkMakeGuessInput "test-session-123" "missingno".

Definition view_example : GetGameSessionInput :=
  mkGetGameSessionInput "test-session-123".

(** The store [makeGuess] leaves behind once a guess is accepted: the
    guess row appended, the rows of the session rewritten. *)
Definition guess_recorded (now : Z) (sid : string) (n pid : Z)
    (isCorrect done : bool) (db : DB) : DB :=
  snd (update_game_session sid n done isCorrect
         (if done then Some now else None)
         (snd (insert_game_guess now sid n pid isCorrect db))).

(** The three values [makeGuess] computes before it writes. *)
Definition guess_isCorrect (row : SessionRow) (guessed : Pokemon) : bool :=
  pk_id guessed =? pk_id (sr_pokemon row).

Definition guess_newGuessNumber (row : SessionRow) : Z :=
  gs_current_guesses (sr_game_session row) + 1.

Definition guess_isGameComplete (row : SessionRow) (guessed : Pokemon) : bool :=
  guess_isCorrect row guessed
  || (guess_newGuessNumber row >=? gs_max_guesses (sr_game_session row)).

(** Store and view of an accepted guess, from the session row [row] the
    handler read, the catalog row [guessed] the name resolved to and
    the first stored row [s0] of the session. *)
Definition accepted_store (now : Z) (sid : string) (row : SessionRow)
    (guessed : Pokemon) (db : DB) : DB :=
  guess_recorded now sid (guess_newGuessNumber row) (pk_id guessed)
                 (guess_isCorrect row guessed) (guess_isGameComplete row guessed) db.

Definition accepted_session (now : Z) (row : SessionRow) (guessed : Pokemon)
    (s0 : GameSession) : GameSession :=
  set_progress (guess_newGuessNumber row) (guess_isGameComplete row guessed)
               (guess_isCorrect row guessed)
               (if guess_isGameComplete row guessed then Some now else None) s0.

Definition accepted_view (now : Z) (sid : string) (row : SessionRow)
    (guessed : Pokemon) (s0 : GameSession) (db : DB) : GameState :=
  {| session := accepted_session now row guessed s0;
     target_pokemon :=
       if guess_isGameComplete row guessed then Some (sr_pokemon row) else None;
     guesses :=
       map (fun result =>
              mkGuessEntry (gr_game_guess result) (gr_pokemon result)
                (makeGuess_feedback (gr_pokemon result) (sr_pokemon row)))
           (guess_join (accepted_store now sid row guessed db) sid);
     can_guess := negb (guess_isGameComplete row guessed) |}.

(** The order in which a view is to list its guesses. *)
Definition number_le (a b : GuessEntry) : Prop :=
  gg_guess_number (ge_guess a) <= gg_guess_number (ge_guess b).

(** ** Reading the feedback *)

(** The verdict a directional field takes when guess and target trade
    places. *)
Definition opposite (v : Verdict) : Verdict :=
  match v with
  | higher => lower
  | lower => higher
  | correct => correct
  | incorrect => incorrect
  end.

(** The two enums of [guessFeedbackSchema]. *)
Definition match_verdict (v : Verdict) : Prop := v = correct \/ v = incorrect.

Definition order_verdict (v : Verdict) : Prop :=
  v = correct \/ v = higher \/ v = lower.

(** The seven compared attributes coincide. *)
Definition same_attributes (g t : Pokemon) : Prop :=
  pk_type1 g = pk_type1 t /\ pk_type2 g = pk_type2 t /\
  pk_evolution_count g = pk_evolution_count t /\
  pk_is_final_evolution g = pk_is_final_evolution t /\
  pk_color g = pk_color t /\ pk_habitat g = pk_habitat t /\
  pk_generation g = pk_generation t.

(** ** More conditions on a store *)

(** A session that is not completed has guesses left. *)
Definition active_has_budget (db : DB) : Prop :=
  forall s, In s (gameSessionTable db) ->
            gs_is_completed s = false ->
            gs_current_guesses s < gs_max_guesses s.

(** [pokemon.id] is a primary key. *)
Definition unique_pokemon_ids (db : DB) : Prop :=
  NoDup (map pk_id (pokemonTable db)).

(** Every guess row names a row of the catalog. *)
Definition guesses_reference_catalog (db : DB) : Prop :=
  forall g, In g (gameGuessTable db) ->
            exists p, In p (pokemonTable db) /\ pk_id p = gg_guessed_pokemon_id g.

(** The numbers 1, 2, ..., n in this order. *)
Definition numbers_upto (n : Z) : list Z :=
  map Z.of_nat (seq 1 (Z.to_nat n)).

(** The columns of a session row that no guess is to touch. *)
Definition session_identity (s : GameSession) : Z * string * Z * Z * Z :=
  (gs_id s, gs_session_id s, gs_daily_pokemon_id s, gs_max_guesses s,
   gs_created_at s).

(** The guess rows stored for a session, in storage order. *)
Definition stored_guesses (db : DB) (sid : string) : list GameGuess :=
  filter (fun g => String.eqb (gg_session_id g) sid) (gameGuessTable db).

(** Two players on the same daily target, the second with one guess
    made. *)
Definition db_two_sessions : DB :=
  mkDB [pikachu; charizard] [daily_pikachu]
       [example_session 6 0 false false None;
        mkGameSession 2 "second-session" 1 6 1 false false 0 None]
       [mkGameGuess 1 "second-session" 1 2 false 0] 2.

Definition view_second : GetGameSessionInput :=
  mkGetGameSessionInput "second-session".

(** ** Evolution chains *)

(** A node of the chain the species API returns: the species name and
    the nodes it evolves to. *)
Local Unset Elimination Schemes.
Inductive EvolutionChainNode :=
| ChainNode (species_name : string) (evolves_to : list EvolutionChainNode).
Local Set Elimination Schemes.

Definition species_name (node : EvolutionChainNode) : string :=
  match node with ChainNode name _ => name end.

Definition evolves_to (node : EvolutionChainNode) : list EvolutionChainNode :=
  match node with ChainNode _ evolutions => evolutions end.

(** Induction on a chain, with the property known of every evolution. *)
Fixpoint EvolutionChainNode_forall_ind (P : EvolutionChainNode -> Prop)
    (step : forall name evolutions,
        Forall P evolutions -> P (ChainNode name evolutions))
    (node : EvolutionChainNode) : P node :=
  match node with
  | ChainNode name evolutions =>
    step name evolutions
      ((fix each (l : list EvolutionChainNode) : Forall P l :=
          match l with
          | [] => Forall_nil P
          | e :: rest =>
            Forall_cons e (EvolutionChainNode_forall_ind P step e) (each rest)
          end) evolutions)
  end.

(** handlers/get_all_pokemon.ts *)
Module GetAllPokemon.

  (** [findPokemonPosition] inside [getEvolutionCount]: the depth of the
      first node, in depth-first order, whose name matches without
      regard to case; -1 when there is none. *)
Fixpoint findPokemonPosition (node : EvolutionChainNode) (target : string)
    (depth : Z) {struct node} : Z :=
  match node with
  | ChainNode name evolutions =>
    if String.eqb (toLowerCase name) (toLowerCase target) then depth
    else
      (fix each (l : list EvolutionChainNode) : Z :=
         match l with
         | [] => -1
         | evolution :: rest =>
           let result := findPokemonPosition evolution target (depth + 1) in
           if negb (result =? -1) then result else each rest
         end) evolutions
  end.

Definition getEvolutionCount (chain : EvolutionChainNode) (targetName : string) : Z :=
  let position := findPokemonPosition chain targetName 0 in
  if position =? -1 then 0 else position.

  (** [findInChain] inside [isFinalEvolution]. *)
Fixpoint findInChain (targetName : string) (node : EvolutionChainNode)
    {struct node} : bool :=
  match node with
  | ChainNode name evolutions =>
    if String.eqb (toLowerCase name) (toLowerCase targetName)
    then (List.length evolutions =? 0)%nat
    else
      (fix each (l : list EvolutionChainNode) : bool :=
         match l with
         | [] => false
         | evolution :: rest =>
           let result := findInChain targetName evolution in
           if negb (Bool.eqb result false) then result else each rest
         end) evolutions
  end.

Definition isFinalEvolution (chain : EvolutionChainNode) (targetName : string) : bool :=
  findInChain targetName chain.

  (** The value stored in [evolution_count] by [syncPokemonData]. *)
Definition stored_evolution_count (chain : EvolutionChainNode)
    (name : string) : Z :=
  Z.max 0 (getEvolutionCount chain name).

End GetAllPokemon.

(** handlers/sync_pokemon_data.ts *)
Module SyncPokemonData.

Record EvolutionInfo := mkEvolutionInfo { count : Z; isFinal : bool }.

  (** [findInChain] inside [getEvolutionInfo]: names are compared as
      they are. *)
Fixpoint findInChain (targetName : string) (node : EvolutionChainNode)
    (depth : Z) {struct node} : option EvolutionInfo :=
  match node with
  | ChainNode name evolutions =>
    if String.eqb name targetName then
      let hasEvolutions := (0 <? List.length evolutions)%nat in
      Some {| count := depth; isFinal := negb hasEvolutions |}
    else
      (fix each (l : list EvolutionChainNode) : option EvolutionInfo :=
         match l with
         | [] => None
         | evolution :: rest =>
           match findInChain targetName evolution (depth + 1) with
           | Some result => Some result
           | None => each rest
           end
         end) evolutions
  end.

Definition getEvolutionInfo (chain : EvolutionChainNode) (targetName : string)
    : EvolutionInfo :=
  match findInChain targetName chain 0 with
  | Some result => result
  | None => {| count := 0; isFinal := true |}
  end.

End SyncPokemonData.

(** handlers/get_daily_pokemon.ts *)
Module GetDailyPokemon.

Record EvolutionData := mkEvolutionData {
  evolution_count : Z;
  is_final_evolution : bool
}.

  (** The names of the chain, a node before the nodes it evolves to. *)
Fixpoint getAllPokemonInChain (chain : EvolutionChainNode) : list string :=
  match chain with
  | ChainNode name evolutions =>
    name ::
    (fix each (l : list EvolutionChainNode) : list string :=
       match l with
       | [] => []
       | evolution :: rest => (getAllPokemonInChain evolution ++ each rest)%list
       end) evolutions
  end.

  (** [Array.prototype.findIndex], counting from [i]. *)
Fixpoint findIndex_from (p : string -> bool) (i : Z) (l : list string) : Z :=
  match l with
  | [] => -1
  | x :: rest => if p x then i else findIndex_from p (i + 1) rest
  end.

Definition findIndex (p : string -> bool) (l : list string) : Z :=
  findIndex_from p 0 l.

Definition getEvolutionData (chain : EvolutionChainNode) (pokemonName : string)
    : EvolutionData :=
  let allPokemon := getAllPokemonInChain chain in
  let pokemonIndex := findIndex (fun name => String.eqb name pokemonName) allPokemon in
  {| evolution_count := pokemonIndex;
     is_final_evolution :=
       pokemonIndex =? Z.of_nat (List.length allPokemon) - 1 |}.

End GetDailyPokemon.

(** The names of the species without evolutions. *)
Fixpoint final_forms (chain : EvolutionChainNode) : list string :=
  match chain with
  | ChainNode name [] => [name]
  | ChainNode name evolutions =>
    (fix each (l : list EvolutionChainNode) : list string :=
       match l with
       | [] => []
       | evolution :: rest => (final_forms evolution ++ each rest)%list
       end) evolutions
  end.

(** A chain without branches: every species evolves to one species at
    most. *)
Fixpoint unbranched (chain : EvolutionChainNode) : Prop :=
  match chain with
  | ChainNode _ [] => True
  | ChainNode _ [evolution] => unbranched evolution
  | ChainNode _ (_ :: _ :: _) => False
  end.

(** Bulbasaur's chain and Eevee's first three branches. *)
Definition bulbasaur_chain : EvolutionChainNode :=
  ChainNode "bulbasaur" [ChainNode "ivysaur" [ChainNode "venusaur" []]].

Definition eevee_chain : EvolutionChainNode :=
  ChainNode "eevee" [ChainNode "vaporeon" []; ChainNode "jolteon" [];
                     ChainNode "flareon" []].

(** ** getDailyPokemon (handlers/get_daily_pokemon.ts) *)

(** [select().from(dailyPokemonTable)
      .innerJoin(pokemonTable, eq(daily_pokemon.pokemon_id, pokemon.id))
      .where(eq(daily_pokemon.date, dateString))] *)
Definition daily_join (db : DB) (dateString : string)
    : list (DailyPokemon * Pokemon) :=
  flat_map (fun d =>
    map (fun p => (d, p))
        (filter (fun p => dp_pokemon_id d =? pk_id p) (pokemonTable db)))
    (filter (fun d => String.eqb (dp_date d) dateString) (dailyPokemonTable db)).

(** What the handler throws: 'No daily Pokemon found for date: ...'. *)
Inductive DailyError := No_daily_Pokemon_found (dateString : string).

(** The handler from its query on; [dateString] is the day
    [targetDate.toISOString().split('T')[0]] of the requested date, or
    of the clock when none is requested. *)
Definition getDailyPokemon (dateString : string) (db : DB)
    : (DailyError + Pokemon) * DB :=
  match daily_join db dateString with
  | [] => (inl (No_daily_Pokemon_found dateString), db)
  | (_, pokemonData) :: _ =>
    (inr {| pk_id := pk_id pokemonData;
            pk_name := pk_name pokemonData;
            pk_type1 := pk_type1 pokemonData;
            pk_type2 := pk_type2 pokemonData;
            pk_evolution_count := pk_evolution_count pokemonData;
            pk_is_final_evolution := pk_is_final_evolution pokemonData;
            pk_color := pk_color pokemonData;
            pk_habitat := pk_habitat pokemonData;
            pk_generation := pk_generation pokemonData;
            pk_sprite_url := pk_sprite_url pokemonData;
            pk_created_at := pk_created_at pokemonData |},
     db)
  end.

(** At most one daily target per date. *)
Definition unique_daily_dates (db : DB) : Prop :=
  NoDup (map dp_date (dailyPokemonTable db)).

(** The convention of the directional verdicts of a feedback [f] for a
    guess [g] against a target [t]: 'higher' says that the guessed value
    is below the target's, 'lower' that it is above. *)
Definition hints_at_target (f : GuessFeedback) (g t : Pokemon) : Prop :=
  (fb_evolution_count f = higher <-> pk_evolution_count g < pk_evolution_count t) /\
  (fb_evolution_count f = lower <-> pk_evolution_count g > pk_evolution_count t) /\
  (fb_generation f = higher <-> pk_generation g < pk_generation t) /\
  (fb_generation f = lower <-> pk_generation g > pk_generation t).

(** * Properties *)

(** ** The feedback engine *)

Lemma nullable_eqb_refl (a : option string) : nullable_eqb a a = true.
Proof. destruct a as [x|]; simpl; [apply String.eqb_refl | reflexivity]. Qed.

(** Once equality is ruled out, [a < b ? 'higher' : 'lower'] and
    [a > b ? 'lower' : 'higher'] choose the same literal. *)
Lemma direction_agrees (a b : Z) :
  (if a =? b then correct else if a <? b then higher else lower) =
  (if a =? b then correct else if a >? b then lower else higher).
Proof.
  destruct (Z.eqb_spec a b) as [|Hne]; [reflexivity|].
  rewrite Z.gtb_ltb.
  destruct (Z.ltb_spec a b), (Z.ltb_spec b a); try reflexivity; lia.
Qed.

Lemma feedback_same (g t : Pokemon) : makeGuess_feedback g t = generateFeedback g t.
Proof.
  unfold makeGuess_feedback, generateFeedback.
  rewrite (direction_agrees (pk_evolution_count g)).
  rewrite (direction_agrees (pk_generation g)).
  reflexivity.
Qed.

(** C1. With pikachu as the target and charizard as the guess, both the
    feedback built inline by [makeGuess] and [generateFeedback] answer
    incorrect for type1, type2, is_final_evolution, color and habitat,
    'lower' for evolution_count (3 against a target of 2) and correct for
    generation. *)
Theorem scenario_feedback :
  makeGuess_feedback charizard pikachu =
    mkGuessFeedback incorrect incorrect lower incorrect incorrect incorrect correct
  /\ generateFeedback charizard pikachu =
    mkGuessFeedback incorrect incorrect lower incorrect incorrect incorrect correct.
Proof. split; reflexivity. Qed.

(** C2 as stated does not hold: no pair of entities makes the two
    feedback computations differ. *)
Lemma feedback_never_disagrees :
  ~ exists g t : Pokemon, makeGuess_feedback g t <> generateFeedback g t.
Proof. intros [g [t Hne]]. apply Hne, feedback_same. Qed.

(** The literal chosen by [a < b ? 'higher' : 'lower'] once equality is
    ruled out: 'higher' exactly when [a] is below [b], 'lower' exactly
    when it is above. *)
Lemma direction_convention (a b : Z) :
  let v := if a =? b then correct else if a <? b then higher else lower in
  (v = higher <-> a < b) /\ (v = lower <-> a > b).
Proof.
  cbv zeta.
  destruct (Z.eqb_spec a b) as [He|Hne].
  - split; split; intro H; try discriminate H; lia.
  - destruct (Z.ltb_spec a b) as [Hlt|Hge];
      split; split; intro H; try discriminate H; try reflexivity; lia.
Qed.

Lemma makeGuess_feedback_hints (g t : Pokemon) :
  hints_at_target (makeGuess_feedback g t) g t.
Proof.
  unfold hints_at_target, makeGuess_feedback. simpl.
  destruct (direction_convention (pk_evolution_count g) (pk_evolution_count t))
    as [H1 H2].
  destruct (direction_convention (pk_generation g) (pk_generation t))
    as [H3 H4].
  repeat split; first [apply H1|apply H2|apply H3|apply H4].
Qed.

(** C2, amended. The feedback built inline by [makeGuess] and
    [generateFeedback] are the same function: on every candidate and
    target they return the same seven verdicts, and in both the
    directional verdicts of evolution_count and generation follow one
    convention, 'higher' exactly when the candidate's value is below
    the target's and 'lower' exactly when it is above. *)
Theorem feedback_implementations_agree :
  forall g t : Pokemon,
    makeGuess_feedback g t = generateFeedback g t /\
    hints_at_target (makeGuess_feedback g t) g t /\
    hints_at_target (generateFeedback g t) g t.
Proof.
  intros g t. split; [apply feedback_same|].
  split; [apply makeGuess_feedback_hints|].
  rewrite <- feedback_same. apply makeGuess_feedback_hints.
Qed.

(** C3. Feedback of an entity against itself is 'correct' on all seven
    fields, in both implementations, whether or not type2 and habitat
    are present. *)
Theorem feedback_reflexive :
  forall A : Pokemon,
    all_correct (makeGuess_feedback A A) /\ all_correct (generateFeedback A A).
Proof.
  intro A. rewrite <- feedback_same.
  assert (all_correct (makeGuess_feedback A A)) as H.
  { unfold all_correct, makeGuess_feedback; simpl.
    rewrite !String.eqb_refl, !nullable_eqb_refl, !Z.eqb_refl, Bool.eqb_reflx.
    repeat split. }
  split; exact H.
Qed.

(** ** Lists and queries *)

Lemma set_progress_session_id n done won at_ s :
  gs_session_id (set_progress n done won at_ s) = gs_session_id s.
Proof. reflexivity. Qed.

(** The rewritten rows are the old rows of the session, each with its
    progress fields replaced. *)
Lemma filter_rewritten sid (f : GameSession -> GameSession)
    (Hf : forall s, gs_session_id (f s) = gs_session_id s) (l : list GameSession) :
  filter (fun s => String.eqb (gs_session_id s) sid)
         (map (fun s => if String.eqb (gs_session_id s) sid then f s else s) l)
  = map f (filter (fun s => String.eqb (gs_session_id s) sid) l).
Proof.
  induction l as [|s l IH]; simpl; [reflexivity|].
  destruct (String.eqb (gs_session_id s) sid) eqn:E; simpl.
  - rewrite Hf, E. simpl. now rewrite IH.
  - rewrite E. exact IH.
Qed.

(** A row of the session join comes from a stored session with that
    identifier. *)
Lemma session_join_stored db sid row :
  In row (session_join db sid) ->
  In (sr_game_session row) (gameSessionTable db)
  /\ gs_session_id (sr_game_session row) = sid.
Proof.
  unfold session_join. intro H.
  apply in_flat_map in H as [s [Hs H]].
  apply in_flat_map in H as [d [_ H]].
  apply in_map_iff in H as [p [<- _]]. simpl.
  apply filter_In in Hs as [Hin He].
  apply String.eqb_eq in He. split; assumption.
Qed.

Lemma find_session_stored db sid row :
  find_session db sid = Some row ->
  In (sr_game_session row) (gameSessionTable db)
  /\ gs_session_id (sr_game_session row) = sid.
Proof.
  unfold find_session. intro H. apply session_join_stored.
  destruct (session_join db sid); simpl in H; [discriminate|].
  injection H as ->. now left.
Qed.

Lemma find_session_stored_nonempty db sid row :
  find_session db sid = Some row ->
  exists s0 rest, stored_sessions db sid = s0 :: rest.
Proof.
  intro H. apply find_session_stored in H as [Hin He].
  assert (In (sr_game_session row) (stored_sessions db sid)) as Hf.
  { apply filter_In. split; [assumption|]. now apply String.eqb_eq. }
  destruct (stored_sessions db sid) as [|s0 rest]; [destruct Hf|eauto].
Qed.

(** ** makeGuess, case by case *)

Section MakeGuessCases.
Variables (now : Z) (input : MakeGuessInput) (db : DB).
Let sid := mg_session_id input.

Lemma makeGuess_not_found :
  find_session db sid = None ->
  makeGuess now input db = (Thrown Game_session_not_found, db).
Proof.
  unfold find_session, makeGuess, bind, select_session_with_target, sid.
  destruct (session_join db (mg_session_id input)); [reflexivity|discriminate].
Qed.

Variable row : SessionRow.
Hypothesis Hrow : find_session db sid = Some row.

Lemma makeGuess_already_completed :
  gs_is_completed (sr_game_session row) = true ->
  makeGuess now input db = (Thrown Game_session_is_already_completed, db).
Proof.
  revert Hrow.
  unfold find_session, makeGuess, bind, select_session_with_target, sid.
  destruct (session_join db (mg_session_id input)); [discriminate|].
  simpl. intros [= ->] ->. reflexivity.
Qed.

Hypothesis Hactive : gs_is_completed (sr_game_session row) = false.

Lemma makeGuess_limit_reached :
  gs_current_guesses (sr_game_session row) >= gs_max_guesses (sr_game_session row) ->
  makeGuess now input db = (Thrown Maximum_guesses_reached, db).
Proof.
  revert Hrow Hactive.
  unfold find_session, makeGuess, bind, select_session_with_target, sid.
  destruct (session_join db (mg_session_id input)); [discriminate|].
  simpl. intros [= ->] -> Hge.
  apply Z.geb_ge in Hge. rewrite Hge. reflexivity.
Qed.

Hypothesis Hbudget :
  gs_current_guesses (sr_game_session row) < gs_max_guesses (sr_game_session row).

Lemma makeGuess_unknown_candidate :
  resolve_candidate db (pokemon_name input) = None ->
  makeGuess now input db = (Thrown Pokemon_not_found, db).
Proof.
  revert Hrow Hactive Hbudget.
  unfold find_session, resolve_candidate, makeGuess, bind,
    select_session_with_target, select_pokemon_by_name, sid.
  destruct (session_join db (mg_session_id input)); [discriminate|].
  simpl. intros [= ->] -> Hlt.
  assert ((gs_current_guesses (sr_game_session row)
           >=? gs_max_guesses (sr_game_session row)) = false) as ->.
  { rewrite Z.geb_leb. apply Z.leb_gt. exact Hlt. }
  destruct (filter _ (pokemonTable db)); [reflexivity|discriminate].
Qed.

Variable guessed : Pokemon.
Hypothesis Hguessed : resolve_candidate db (pokemon_name input) = Some guessed.

(** The accepted guess: the store becomes [accepted_store] and the
    view is built from the first rewritten row of the session. *)
Lemma makeGuess_accepted :
  exists s0 rest,
    stored_sessions db sid = s0 :: rest /\
    makeGuess now input db =
      (Returned (accepted_view now sid row guessed s0 db),
       accepted_store now sid row guessed db).
Proof.
  destruct (find_session_stored_nonempty db sid row Hrow) as [s0 [rest Hst]].
  exists s0, rest. split; [exact Hst|].
  revert Hrow Hactive Hbudget Hguessed.
  unfold accepted_view, accepted_store, accepted_session, guess_isGameComplete,
    guess_newGuessNumber, guess_isCorrect, guess_recorded.
  unfold find_session, resolve_candidate, makeGuess, bind,
    select_session_with_target, select_pokemon_by_name,
    select_game_session, select_guesses_with_pokemon, ret.
  fold sid.
  destruct (session_join db sid); [discriminate|].
  simpl hd_error. intros [= ->] Hact Hlt.
  cbv zeta. rewrite Hact.
  assert ((gs_current_guesses (sr_game_session row)
           >=? gs_max_guesses (sr_game_session row)) = false) as ->.
  { rewrite Z.geb_leb. apply Z.leb_gt. exact Hlt. }
  destruct (filter _ (pokemonTable db)); [discriminate|].
  simpl hd_error. intros [= ->].
  cbn [insert_game_guess update_game_session snd fst gameSessionTable
       gameGuessTable pokemonTable dailyPokemonTable game_guess_id_seq].
  rewrite filter_rewritten by reflexivity.
  fold (stored_sessions db sid). rewrite Hst.
  cbn [map gs_is_completed set_progress].
  reflexivity.
Qed.
End MakeGuessCases.

(** What [makeGuess] does, in full: it throws one of its four errors and
    leaves the store as it was, or it accepts the guess. *)
Lemma makeGuess_outcome now input db :
  (exists e, makeGuess now input db = (Thrown e, db) /\ e <> TypeError)
  \/ (exists row guessed s0 rest,
        find_session db (mg_session_id input) = Some row /\
        gs_is_completed (sr_game_session row) = false /\
        gs_current_guesses (sr_game_session row)
          < gs_max_guesses (sr_game_session row) /\
        resolve_candidate db (pokemon_name input) = Some guessed /\
        stored_sessions db (mg_session_id input) = s0 :: rest /\
        makeGuess now input db =
          (Returned (accepted_view now (mg_session_id input) row guessed s0 db),
           accepted_store now (mg_session_id input) row guessed db)).
Proof.
  destruct (find_session db (mg_session_id input)) as [row|] eqn:Hrow.
  2:{ left. eexists. split; [now apply makeGuess_not_found|discriminate]. }
  destruct (gs_is_completed (sr_game_session row)) eqn:Hc.
  { left. eexists. split; [now apply (makeGuess_already_completed now input db row)|discriminate]. }
  destruct (Z_lt_ge_dec (gs_current_guesses (sr_game_session row))
                        (gs_max_guesses (sr_game_session row))) as [Hlt|Hge].
  2:{ left. eexists. split; [now apply (makeGuess_limit_reached now input db row)|discriminate]. }
  destruct (resolve_candidate db (pokemon_name input)) as [guessed|] eqn:Hg.
  2:{ left. eexists. split; [now apply (makeGuess_unknown_candidate now input db row)|discriminate]. }
  right.
  destruct (makeGuess_accepted now input db row Hrow Hc Hlt guessed Hg)
    as [s0 [rest [Hst Heq]]].
  exists row, guessed, s0, rest. repeat split; assumption.
Qed.

Lemma makeGuess_returned now input db v db' :
  makeGuess now input db = (Returned v, db') ->
  exists row guessed s0 rest,
    find_session db (mg_session_id input) = Some row /\
    gs_is_completed (sr_game_session row) = false /\
    gs_current_guesses (sr_game_session row)
      < gs_max_guesses (sr_game_session row) /\
    resolve_candidate db (pokemon_name input) = Some guessed /\
    stored_sessions db (mg_session_id input) = s0 :: rest /\
    v = accepted_view now (mg_session_id input) row guessed s0 db /\
    db' = accepted_store now (mg_session_id input) row guessed db.
Proof.
  intro H.
  destruct (makeGuess_outcome now input db)
    as [[e [He _]]|[row [guessed [s0 [rest (Hr & Hc & Hlt & Hg & Hst & Heq)]]]]].
  - rewrite He in H. discriminate.
  - rewrite Heq in H. injection H as <- <-.
    exists row, guessed, s0, rest. repeat split; assumption.
Qed.

Lemma makeGuess_thrown now input db e db' :
  makeGuess now input db = (Thrown e, db') -> db' = db /\ e <> TypeError.
Proof.
  intro H.
  destruct (makeGuess_outcome now input db)
    as [[e' [He Hne]]|[row [guessed [s0 [rest (_ & _ & _ & _ & _ & Heq)]]]]].
  - rewrite He in H. injection H as <- <-. split; [reflexivity|assumption].
  - rewrite Heq in H. discriminate.
Qed.

(** The rows of the session after an accepted guess are its old rows
    with the progress fields rewritten. *)
Lemma accepted_store_sessions now sid row guessed db :
  stored_sessions (accepted_store now sid row guessed db) sid
  = map (accepted_session now row guessed) (stored_sessions db sid).
Proof.
  unfold stored_sessions, accepted_store, guess_recorded, accepted_session.
  cbn [insert_game_guess update_game_session snd gameSessionTable].
  apply filter_rewritten. reflexivity.
Qed.

(** ** The session state machine *)

(** C4. On a session that is not completed and has guesses left, a guess
    that resolves to the target is accepted and leaves the session
    Completed-Won, in the view returned and in the store, with
    [completed_at] set to the time of the guess, whatever the number of
    guesses left. *)
Theorem correct_guess_wins now input db row guessed :
  find_session db (mg_session_id input) = Some row ->
  gs_is_completed (sr_game_session row) = false ->
  gs_current_guesses (sr_game_session row) < gs_max_guesses (sr_game_session row) ->
  resolve_candidate db (pokemon_name input) = Some guessed ->
  pk_id guessed = pk_id (sr_pokemon row) ->
  exists v db',
    makeGuess now input db = (Returned v, db') /\
    Completed_Won (session v) /\
    gs_completed_at (session v) = Some now /\
    stored_sessions db' (mg_session_id input) <> [] /\
    forall s, In s (stored_sessions db' (mg_session_id input)) ->
              Completed_Won s /\ gs_completed_at s = Some now.
Proof.
  intros Hrow Hc Hlt Hg Hid.
  destruct (makeGuess_accepted now input db row Hrow Hc Hlt guessed Hg)
    as [s0 [rest [Hst Heq]]].
  assert (guess_isCorrect row guessed = true) as Hcorrect
    by (unfold guess_isCorrect; now apply Z.eqb_eq).
  assert (guess_isGameComplete row guessed = true) as Hdone
    by (unfold guess_isGameComplete; now rewrite Hcorrect).
  assert (forall s, Completed_Won (accepted_session now row guessed s)
                    /\ gs_completed_at (accepted_session now row guessed s) = Some now)
    as Hwon.
  { intro s. unfold Completed_Won, accepted_session. simpl.
    rewrite Hdone, Hcorrect. repeat split. discriminate. }
  eexists _, _. split; [exact Heq|].
  rewrite accepted_store_sessions, Hst.
  split; [apply Hwon|]. split; [apply Hwon|]. split; [discriminate|].
  intros s Hs. apply in_map_iff in Hs as [s' [<- _]]. apply Hwon.
Qed.

Lemma correct_guess_wins_example :
  exists v db',
    makeGuess 9 guess_pikachu db_fresh = (Returned v, db') /\
    Completed_Won (session v) /\
    gs_completed_at (session v) = Some 9 /\
    stored_sessions db' "test-session-123" <> [] /\
    forall s, In s (stored_sessions db' "test-session-123") ->
              Completed_Won s /\ gs_completed_at s = Some 9.
Proof.
  apply (correct_guess_wins 9 guess_pikachu db_fresh
           (mkSessionRow (example_session 6 0 false false None) daily_pikachu pikachu)
           pikachu).
  - reflexivity.
  - reflexivity.
  - simpl. lia.
  - reflexivity.
  - reflexivity.
Defined.

(** C5. On a session that is not completed, a guess that resolves to an
    entity other than the target is accepted; when it is the last of the
    budget ([current_guesses = max_guesses - 1]) the session is left
    Completed-Lost with [completed_at] set, in the view and in the
    store, and when more guesses remain ([current_guesses <
    max_guesses - 1]) the session is left Active. *)
Theorem incorrect_guess_loses_on_last now input db row guessed :
  find_session db (mg_session_id input) = Some row ->
  Active (sr_game_session row) ->
  gs_current_guesses (sr_game_session row) <= gs_max_guesses (sr_game_session row) - 1 ->
  resolve_candidate db (pokemon_name input) = Some guessed ->
  pk_id guessed <> pk_id (sr_pokemon row) ->
  exists v db',
    makeGuess now input db = (Returned v, db') /\
    stored_sessions db' (mg_session_id input) <> [] /\
    (gs_current_guesses (sr_game_session row)
       = gs_max_guesses (sr_game_session row) - 1 ->
     Completed_Lost (session v) /\
     forall s, In s (stored_sessions db' (mg_session_id input)) -> Completed_Lost s) /\
    (gs_current_guesses (sr_game_session row)
       < gs_max_guesses (sr_game_session row) - 1 ->
     Active (session v) /\
     forall s, In s (stored_sessions db' (mg_session_id input)) -> Active s).
Proof.
  intros Hrow Hc Hle Hg Hid.
  assert (gs_current_guesses (sr_game_session row)
          < gs_max_guesses (sr_game_session row)) as Hlt by lia.
  destruct (makeGuess_accepted now input db row Hrow Hc Hlt guessed Hg)
    as [s0 [rest [Hst Heq]]].
  assert (guess_isCorrect row guessed = false) as Hwrong
    by (unfold guess_isCorrect; now apply Z.eqb_neq).
  eexists _, _. split; [exact Heq|].
  rewrite accepted_store_sessions, Hst.
  split; [discriminate|]. split.
  - intro Hlast.
    assert (guess_isGameComplete row guessed = true) as Hdone.
    { unfold guess_isGameComplete, guess_newGuessNumber.
      rewrite Hwrong. simpl. apply Z.geb_ge. lia. }
    assert (forall s, Completed_Lost (accepted_session now row guessed s)) as Hlost.
    { intro s. unfold Completed_Lost, accepted_session. simpl.
      rewrite Hdone, Hwrong. repeat split. discriminate. }
    split; [apply Hlost|].
    intros s Hs. apply in_map_iff in Hs as [s' [<- _]]. apply Hlost.
  - intro Hmore.
    assert (guess_isGameComplete row guessed = false) as Hopen.
    { unfold guess_isGameComplete, guess_newGuessNumber.
      rewrite Hwrong. simpl. rewrite Z.geb_leb. apply Z.leb_gt. lia. }
    assert (forall s, Active (accepted_session now row guessed s)) as Hact.
    { intro s. unfold Active, accepted_session. simpl. exact Hopen. }
    split; [apply Hact|].
    intros s Hs. apply in_map_iff in Hs as [s' [<- _]]. apply Hact.
Qed.

Lemma incorrect_guess_loses_on_last_example :
  exists v db',
    makeGuess 9 guess_charizard db_last_chance = (Returned v, db') /\
    stored_sessions db' "test-session-123" <> [] /\
    (1 = 2 - 1 ->
     Completed_Lost (session v) /\
     forall s, In s (stored_sessions db' "test-session-123") -> Completed_Lost s) /\
    (1 < 2 - 1 ->
     Active (session v) /\
     forall s, In s (stored_sessions db' "test-session-123") -> Active s).
Proof.
  apply (incorrect_guess_loses_on_last 9 guess_charizard db_last_chance
           (mkSessionRow (example_session 2 1 false false None) daily_pikachu pikachu)
           charizard).
  - reflexivity.
  - reflexivity.
  - simpl. lia.
  - reflexivity.
  - simpl. lia.
Defined.

(** C6. Each failure path of [makeGuess] throws its own error and hands
    back the store it was given: no session row in the join, a session
    already completed, a count of guesses at or above the maximum, a
    name that resolves to no catalog row.  Whatever error is thrown the
    store is unchanged, and when no error is thrown the guess row and
    the session's counters and flags are written together. *)
Theorem failed_guess_changes_nothing now input db :
  (find_session db (mg_session_id input) = None ->
   makeGuess now input db = (Thrown Game_session_not_found, db)) /\
  (forall row,
     find_session db (mg_session_id input) = Some row ->
     gs_is_completed (sr_game_session row) = true ->
     makeGuess now input db = (Thrown Game_session_is_already_completed, db)) /\
  (forall row,
     find_session db (mg_session_id input) = Some row ->
     gs_is_completed (sr_game_session row) = false ->
     gs_current_guesses (sr_game_session row) >= gs_max_guesses (sr_game_session row) ->
     makeGuess now input db = (Thrown Maximum_guesses_reached, db)) /\
  (forall row,
     find_session db (mg_session_id input) = Some row ->
     gs_is_completed (sr_game_session row) = false ->
     gs_current_guesses (sr_game_session row) < gs_max_guesses (sr_game_session row) ->
     resolve_candidate db (pokemon_name input) = None ->
     makeGuess now input db = (Thrown Pokemon_not_found, db)) /\
  (forall e db', makeGuess now input db = (Thrown e, db') -> db' = db) /\
  (forall v db',
     makeGuess now input db = (Returned v, db') ->
     exists row guessed,
       find_session db (mg_session_id input) = Some row /\
       resolve_candidate db (pokemon_name input) = Some guessed /\
       db' = accepted_store now (mg_session_id input) row guessed db).
Proof.
  split; [apply makeGuess_not_found|].
  split; [intros row; apply makeGuess_already_completed|].
  split; [intros row; apply makeGuess_limit_reached|].
  split; [intros row; apply makeGuess_unknown_candidate|].
  split.
  - intros e db' H. now apply makeGuess_thrown in H.
  - intros v db' H.
    apply makeGuess_returned in H
      as [row [guessed [s0 [rest (Hr & _ & _ & Hg & _ & _ & Hdb)]]]].
    exists row, guessed. repeat split; assumption.
Qed.

Lemma failed_guess_changes_nothing_example :
  makeGuess 9 guess_charizard db_won
  = (Thrown Game_session_is_already_completed, db_won)
  /\ makeGuess 9 guess_charizard db_exhausted
  = (Thrown Maximum_guesses_reached, db_exhausted)
  /\ makeGuess 9 guess_missingno db_fresh = (Thrown Pokemon_not_found, db_fresh).
Proof.
  split; [|split].
  - apply (proj1 (proj2 (failed_guess_changes_nothing 9 guess_charizard db_won))
             (mkSessionRow (example_session 6 1 true true (Some 5))
                           daily_pikachu pikachu)).
    + reflexivity.
    + reflexivity.
  - apply (proj1 (proj2 (proj2
             (failed_guess_changes_nothing 9 guess_charizard db_exhausted)))
             (mkSessionRow (example_session 6 6 false false None)
                           daily_pikachu pikachu)).
    + reflexivity.
    + reflexivity.
    + simpl. lia.
  - apply (proj1 (proj2 (proj2 (proj2
             (failed_guess_changes_nothing 9 guess_missingno db_fresh))))
             (mkSessionRow (example_session 6 0 false false None)
                           daily_pikachu pikachu)).
    + reflexivity.
    + reflexivity.
    + simpl. lia.
    + reflexivity.
Defined.

(** ** Session views *)

Lemma getGameSession_returned input db v db' :
  getGameSession input db = (Returned v, db') ->
  exists row,
    find_session db (gi_session_id input) = Some row /\
    db' = db /\
    v = {| session := sr_game_session row;
           target_pokemon :=
             if gs_is_completed (sr_game_session row)
             then Some (sr_pokemon row) else None;
           guesses :=
             sort by_guess_number
               (map (fun result =>
                       mkGuessEntry (gr_game_guess result) (gr_pokemon result)
                         (generateFeedback (gr_pokemon result) (sr_pokemon row)))
                    (guess_join db (gi_session_id input)));
           can_guess :=
             negb (gs_is_completed (sr_game_session row))
             && (gs_current_guesses (sr_game_session row)
                 <? gs_max_guesses (sr_game_session row)) |}.
Proof.
  unfold getGameSession, find_session, bind, select_session_with_target,
    select_guesses_with_pokemon, ret, throw.
  destruct (session_join db (gi_session_id input)) as [|row rest];
    [discriminate|].
  intros [= <- <-]. exists row. repeat split.
Qed.

Lemma getGameSession_not_found input db :
  find_session db (gi_session_id input) = None ->
  getGameSession input db = (Thrown Game_session_not_found, db).
Proof.
  unfold getGameSession, find_session, bind, select_session_with_target.
  destruct (session_join db (gi_session_id input)); [reflexivity|discriminate].
Qed.

(** C8. In the view returned by [getGameSession] and in the view
    returned by [makeGuess], [target_pokemon] is null when the view's
    session is not completed and is the session's target when it is. *)
Theorem target_shown_iff_completed :
  (forall input db v db',
     getGameSession input db = (Returned v, db') ->
     (gs_is_completed (session v) = false -> target_pokemon v = None) /\
     (gs_is_completed (session v) = true ->
      exists row, find_session db (gi_session_id input) = Some row
                  /\ target_pokemon v = Some (sr_pokemon row)))
  /\
  (forall now input db v db',
     makeGuess now input db = (Returned v, db') ->
     (gs_is_completed (session v) = false -> target_pokemon v = None) /\
     (gs_is_completed (session v) = true ->
      exists row, find_session db (mg_session_id input) = Some row
                  /\ target_pokemon v = Some (sr_pokemon row))).
Proof.
  split.
  - intros input db v db' H.
    apply getGameSession_returned in H as [row (Hrow & _ & ->)]. simpl.
    split; intro Hc; rewrite Hc; [reflexivity|].
    exists row. split; [assumption|reflexivity].
  - intros now input db v db' H.
    apply makeGuess_returned in H
      as [row [guessed [s0 [rest (Hrow & _ & _ & _ & _ & -> & _)]]]].
    simpl. split; intro Hc; rewrite Hc; [reflexivity|].
    exists row. split; [assumption|reflexivity].
Qed.

Lemma target_shown_iff_completed_example :
  (exists v, getGameSession view_example db_won = (Returned v, db_won)
             /\ target_pokemon v = Some pikachu)
  /\ (exists v db', makeGuess 9 guess_charizard db_fresh = (Returned v, db')
                    /\ target_pokemon v = None).
Proof.
  split.
  - eexists. split; [vm_compute; reflexivity|].
    edestruct (proj1 target_shown_iff_completed view_example db_won)
      as [_ Hshown]; [vm_compute; reflexivity|].
    destruct (Hshown eq_refl) as [row [Hrow Ht]].
    injection Hrow as <-. exact Ht.
  - eexists _, _. split; [vm_compute; reflexivity|].
    edestruct (proj2 target_shown_iff_completed 9 guess_charizard db_fresh)
      as [Hhidden _]; [vm_compute; reflexivity|].
    exact (Hhidden eq_refl).
Defined.

(** C10 as stated does not hold for [getGameSession]: on the stored
    session whose count of guesses is at the maximum and which is not
    marked completed, the view is of an Active session and its
    [can_guess] is false. *)
Lemma can_guess_not_iff_active :
  ~ (forall v db',
       getGameSession view_example db_exhausted = (Returned v, db') ->
       (can_guess v = true <-> Active (session v))).
Proof.
  intro H.
  specialize (H _ _ eq_refl). simpl in H.
  destruct H as [_ H]. specialize (H eq_refl). discriminate.
Qed.

(** C10, amended. In the view returned by [getGameSession], [can_guess]
    is true if and only if the session is Active and its count of
    guesses is below [max_guesses]; in the view returned by [makeGuess],
    [can_guess] is true if and only if the session is Active. *)
Theorem can_guess_characterised :
  (forall input db v db',
     getGameSession input db = (Returned v, db') ->
     (can_guess v = true <->
      Active (session v) /\ gs_current_guesses (session v) < gs_max_guesses (session v)))
  /\
  (forall now input db v db',
     makeGuess now input db = (Returned v, db') ->
     (can_guess v = true <-> Active (session v))).
Proof.
  split.
  - intros input db v db' H.
    apply getGameSession_returned in H as [row (_ & _ & ->)].
    unfold Active. simpl.
    rewrite andb_true_iff, negb_true_iff, Z.ltb_lt. reflexivity.
  - intros now input db v db' H.
    apply makeGuess_returned in H
      as [row [guessed [s0 [rest (_ & _ & _ & _ & _ & -> & _)]]]].
    unfold Active. simpl. apply negb_true_iff.
Qed.

Lemma can_guess_characterised_example :
  (exists v, getGameSession view_example db_fresh = (Returned v, db_fresh)
             /\ can_guess v = true)
  /\ (exists v db', makeGuess 9 guess_charizard db_last_chance = (Returned v, db')
                    /\ can_guess v <> true).
Proof.
  split.
  - eexists. split; [vm_compute; reflexivity|].
    eapply (proj1 can_guess_characterised view_example db_fresh); [vm_compute; reflexivity|].
    split; [reflexivity|simpl; lia].
  - eexists _, _. split; [vm_compute; reflexivity|].
    intro Hcg.
    eapply (proj2 can_guess_characterised 9 guess_charizard db_last_chance) in Hcg;
      [|vm_compute; reflexivity].
    discriminate Hcg.
Defined.

(** ** Order of the guesses in a view *)

Lemma sort_insert_perm x l :
  Permutation (sort_insert by_guess_number x l) (x :: l).
Proof.
  induction l as [|y l IH]; simpl; [apply Permutation_refl|].
  destruct (by_guess_number x y <=? 0); [apply Permutation_refl|].
  eapply perm_trans; [apply perm_skip, IH|apply perm_swap].
Qed.

Lemma sort_perm l : Permutation (sort by_guess_number l) l.
Proof.
  induction l as [|x l IH]; simpl; [apply perm_nil|].
  eapply perm_trans; [apply sort_insert_perm|apply perm_skip, IH].
Qed.

Lemma sort_insert_hd x a l :
  number_le a x -> HdRel number_le a l ->
  HdRel number_le a (sort_insert by_guess_number x l).
Proof.
  intros Hax Hal. destruct l as [|y l]; simpl; [now constructor|].
  destruct (by_guess_number x y <=? 0); constructor; [assumption|].
  now inversion Hal.
Qed.

Lemma sort_insert_sorted x l :
  Sorted number_le l -> Sorted number_le (sort_insert by_guess_number x l).
Proof.
  induction 1 as [|y l Hs IH Hhd]; simpl.
  - repeat constructor.
  - destruct (Z.leb_spec (by_guess_number x y) 0) as [Hle|Hgt].
    + constructor; [now constructor|].
      constructor. unfold number_le, by_guess_number in *. lia.
    + constructor; [exact IH|].
      apply sort_insert_hd; [|exact Hhd].
      unfold number_le, by_guess_number in *. lia.
Qed.

Lemma sort_sorted l : Sorted number_le (sort by_guess_number l).
Proof.
  induction l as [|x l IH]; simpl; [constructor|].
  now apply sort_insert_sorted.
Qed.

(** The view of [getGameSession] lists the joined guesses of the session,
    all of them, in non-decreasing sequence number, whatever their order
    in the store. *)
Lemma getGameSession_guesses_sorted input db v db' :
  getGameSession input db = (Returned v, db') ->
  Sorted number_le (guesses v)
  /\ Permutation (map ge_guess (guesses v))
                 (map gr_game_guess (guess_join db (gi_session_id input))).
Proof.
  intro H. apply getGameSession_returned in H as [row (_ & _ & ->)]. simpl.
  split; [apply sort_sorted|].
  eapply perm_trans; [apply Permutation_map, sort_perm|].
  rewrite map_map. simpl. apply Permutation_refl.
Qed.

(** C7, at the store [db_reordered], a store of the data model whose one
    session satisfies the session invariant and whose two guesses are
    stored as 2, 1: the guess of charizard is accepted as number 3 and
    the view [makeGuess] returns lists the sequence numbers 2, 1, 3, in
    storage order; [getGameSession] on the store left behind lists
    1, 2, 3. *)
Theorem makeGuess_view_in_storage_order :
  well_formed_store db_reordered /\
  store_invariant db_reordered /\
  exists v db',
    makeGuess 9 guess_charizard db_reordered = (Returned v, db') /\
    view_guess_numbers v = [2; 1; 3] /\
    exists v', getGameSession view_example db' = (Returned v', db') /\
               view_guess_numbers v' = [1; 2; 3].
Proof.
  split; [|split].
  - split.
    + unfold unique_session_ids. simpl. constructor; [intros []|constructor].
    + intros s [<-|[]]. simpl. lia.
  - intros s [<-|[]]. unfold session_invariant, dense. simpl.
    split; [lia|]. split; [discriminate|]. split; [split; congruence|].
    split.
    + apply NoDup_cons; [simpl; intros [H|[]]; discriminate H|].
      apply NoDup_cons; [intros []|apply NoDup_nil].
    + intro k. lia.
  - eexists _, _. split; [vm_compute; reflexivity|].
    split; [reflexivity|].
    eexists. split; [vm_compute; reflexivity|reflexivity].
Qed.

(** ** The store invariant *)

Lemma nodup_map_inj {A B} (f : A -> B) (l : list A) a b :
  NoDup (map f l) -> In a l -> In b l -> f a = f b -> a = b.
Proof.
  induction l as [|x l IH]; simpl; [intros _ []|].
  intros Hnd Ha Hb Hab. inversion Hnd as [|? ? Hnotin Hnd']; subst.
  destruct Ha as [->|Ha], Hb as [->|Hb]; try reflexivity.
  - exfalso. apply Hnotin. rewrite Hab. now apply in_map.
  - exfalso. apply Hnotin. rewrite <- Hab. now apply in_map.
  - now apply IH.
Qed.

Lemma dense_snoc l c : 0 <= c -> dense l c -> dense (l ++ [c + 1]) (c + 1).
Proof.
  intros Hc [Hnd Hin]. split.
  - apply Permutation_NoDup with (l := (c + 1) :: l).
    + apply Permutation_cons_append.
    + constructor; [|exact Hnd]. intro H. apply Hin in H. lia.
  - intro k. rewrite in_app_iff, Hin. simpl. lia.
Qed.

Lemma accepted_store_sessions_all now sid row guessed db :
  gameSessionTable (accepted_store now sid row guessed db)
  = map (fun s => if String.eqb (gs_session_id s) sid
                  then accepted_session now row guessed s else s)
        (gameSessionTable db).
Proof. reflexivity. Qed.

Lemma accepted_store_guess_numbers now sid row guessed db sid' :
  guess_numbers (accepted_store now sid row guessed db) sid'
  = if String.eqb sid sid'
    then (guess_numbers db sid' ++ [guess_newGuessNumber row])%list
    else guess_numbers db sid'.
Proof.
  unfold guess_numbers, accepted_store, guess_recorded.
  cbn [insert_game_guess update_game_session snd gameGuessTable].
  rewrite filter_app. cbn [filter gg_session_id].
  destruct (String.eqb sid sid'); rewrite map_app; simpl;
    [reflexivity|apply app_nil_r].
Qed.

Lemma accepted_session_invariant now sid row guessed db s :
  gs_session_id s = sid ->
  gs_current_guesses s = gs_current_guesses (sr_game_session row) ->
  gs_max_guesses s = gs_max_guesses (sr_game_session row) ->
  0 <= gs_current_guesses s < gs_max_guesses s ->
  session_invariant db s ->
  session_invariant (accepted_store now sid row guessed db)
                    (accepted_session now row guessed s).
Proof.
  intros Hsid Hcur Hmax Hrange (_ & _ & _ & Hdense).
  unfold session_invariant, accepted_session.
  cbn [set_progress gs_current_guesses gs_max_guesses gs_is_won
       gs_is_completed gs_completed_at gs_session_id].
  rewrite accepted_store_guess_numbers, Hsid, String.eqb_refl.
  unfold guess_newGuessNumber. rewrite <- Hcur.
  split; [lia|]. split; [|split].
  - unfold guess_isGameComplete. intros ->. reflexivity.
  - destruct (guess_isGameComplete row guessed); split;
      congruence || discriminate.
  - apply dense_snoc; [lia|]. rewrite <- Hsid. exact Hdense.
Qed.

Lemma other_session_invariant now sid row guessed db s :
  gs_session_id s <> sid ->
  session_invariant db s ->
  session_invariant (accepted_store now sid row guessed db) s.
Proof.
  intros Hsid (Hrange & Hwon & Hat & Hdense).
  unfold session_invariant.
  rewrite accepted_store_guess_numbers.
  assert (String.eqb sid (gs_session_id s) = false) as ->
    by (apply String.eqb_neq; congruence).
  split; [exact Hrange|]. split; [exact Hwon|]. split; [exact Hat|exact Hdense].
Qed.

(** The row the handler read is the one stored row of its session. *)
Lemma the_stored_session db sid row s :
  unique_session_ids db ->
  find_session db sid = Some row ->
  In s (gameSessionTable db) -> gs_session_id s = sid ->
  s = sr_game_session row.
Proof.
  intros Huniq Hrow Hs He.
  apply find_session_stored in Hrow as [Hin Hsid].
  apply (nodup_map_inj gs_session_id (gameSessionTable db));
    try assumption. congruence.
Qed.

Lemma accepted_store_invariant now sid row guessed db :
  find_session db sid = Some row ->
  gs_current_guesses (sr_game_session row) < gs_max_guesses (sr_game_session row) ->
  well_formed_store db ->
  store_invariant db ->
  store_invariant (accepted_store now sid row guessed db).
Proof.
  intros Hrow Hlt [Huniq Hnonneg] Hall s' Hs'.
  rewrite accepted_store_sessions_all in Hs'.
  apply in_map_iff in Hs' as [s [<- Hs]].
  destruct (String.eqb_spec (gs_session_id s) sid) as [He|Hne].
  - assert (s = sr_game_session row) as Heq
      by (now apply (the_stored_session db sid)).
    apply accepted_session_invariant; auto; try congruence.
    split; [now apply Hnonneg|]. rewrite Heq. exact Hlt.
  - apply other_session_invariant; auto.
Qed.

Lemma accepted_store_well_formed now sid row guessed db :
  find_session db sid = Some row ->
  well_formed_store db ->
  well_formed_store (accepted_store now sid row guessed db).
Proof.
  intros Hrow [Huniq Hnonneg].
  split.
  - unfold unique_session_ids. rewrite accepted_store_sessions_all, map_map.
    erewrite map_ext; [exact Huniq|].
    intro s. simpl. now destruct (String.eqb (gs_session_id s) sid).
  - intros s' Hs'. rewrite accepted_store_sessions_all in Hs'.
    apply in_map_iff in Hs' as [s [<- Hs]].
    destruct (String.eqb_spec (gs_session_id s) sid) as [He|Hne];
      [|now apply Hnonneg].
    assert (s = sr_game_session row) as Heq
      by (now apply (the_stored_session db sid)).
    unfold accepted_session, guess_newGuessNumber. simpl.
    rewrite <- Heq. specialize (Hnonneg s Hs). lia.
Qed.

(** C9. On a store of the data model (session identifiers name one
    session, counts of guesses are non-negative), the session invariant
    -- [current_guesses <= max_guesses], won implies completed,
    [completed_at] set exactly when completed, guesses numbered exactly
    1..current_guesses with each number once -- holds of every session
    in the store [makeGuess] leaves behind whenever it holds of every
    session in the store it is given, whether the guess is accepted or
    an error is thrown; the store left behind is again one of the data
    model. *)
Theorem store_invariant_preserved now input db :
  well_formed_store db ->
  store_invariant db ->
  store_invariant (snd (makeGuess now input db))
  /\ well_formed_store (snd (makeGuess now input db)).
Proof.
  intros Hwf Hinv.
  destruct (makeGuess_outcome now input db)
    as [[e [-> _]]|[row [guessed [s0 [rest (Hr & _ & Hlt & _ & _ & ->)]]]]].
  - split; assumption.
  - simpl. split.
    + now apply accepted_store_invariant.
    + now apply accepted_store_well_formed.
Qed.

Lemma db_fresh_well_formed : well_formed_store db_fresh.
Proof.
  split.
  - unfold unique_session_ids. simpl. constructor; [intros []|constructor].
  - intros s [<-|[]]. simpl. lia.
Defined.

Lemma db_fresh_invariant : store_invariant db_fresh.
Proof.
  intros s [<-|[]]. unfold session_invariant, dense. simpl.
  repeat split; try lia; try discriminate; try congruence;
    try constructor; try (intros []).
Defined.

Lemma store_invariant_preserved_example :
  store_invariant (snd (makeGuess 9 guess_charizard db_fresh))
  /\ well_formed_store (snd (makeGuess 9 guess_charizard db_fresh)).
Proof.
  apply (store_invariant_preserved 9 guess_charizard db_fresh).
  - exact db_fresh_well_formed.
  - exact db_fresh_invariant.
Defined.

(** * Further properties *)

(** ** What a verdict says *)

Lemma nullable_eqb_eq (a b : option string) : nullable_eqb a b = true <-> a = b.
Proof.
  destruct a as [x|], b as [y|]; simpl; try (split; congruence).
  rewrite String.eqb_eq. split; congruence.
Qed.

Lemma nullable_eqb_sym (a b : option string) : nullable_eqb a b = nullable_eqb b a.
Proof.
  destruct a as [x|], b as [y|]; simpl; try reflexivity. apply String.eqb_sym.
Qed.

Lemma direction_reading (a b : Z) :
  let v := if a =? b then correct else if a >? b then lower else higher in
  (v = correct <-> a = b) /\ (v = higher <-> a < b) /\ (v = lower <-> a > b)
  /\ v <> incorrect.
Proof.
  cbv zeta. rewrite Z.gtb_ltb.
  destruct (Z.eqb_spec a b), (Z.ltb_spec b a);
    repeat split; intros; try discriminate; try lia; try reflexivity.
Qed.

(** The directional verdicts are hints about the target: 'correct' when
    the guessed value equals the target's, 'higher' when the guessed
    value is below it, 'lower' when it is above; this holds of
    evolution_count and of generation. *)
Theorem directional_verdict_reading (g t : Pokemon) :
  let f := generateFeedback g t in
  (fb_evolution_count f = correct <-> pk_evolution_count g = pk_evolution_count t) /\
  (fb_evolution_count f = higher <-> pk_evolution_count g < pk_evolution_count t) /\
  (fb_evolution_count f = lower <-> pk_evolution_count g > pk_evolution_count t) /\
  (fb_generation f = correct <-> pk_generation g = pk_generation t) /\
  (fb_generation f = higher <-> pk_generation g < pk_generation t) /\
  (fb_generation f = lower <-> pk_generation g > pk_generation t).
Proof.
  cbv zeta. unfold generateFeedback. simpl.
  destruct (direction_reading (pk_evolution_count g) (pk_evolution_count t))
    as (H1 & H2 & H3 & _).
  destruct (direction_reading (pk_generation g) (pk_generation t))
    as (H4 & H5 & H6 & _).
  repeat split; first [apply H1|apply H2|apply H3|apply H4|apply H5|apply H6].
Qed.

Lemma direction_opposite (a b : Z) :
  (if b =? a then correct else if b >? a then lower else higher)
  = opposite (if a =? b then correct else if a >? b then lower else higher).
Proof.
  rewrite !Z.gtb_ltb, (Z.eqb_sym b a).
  destruct (Z.eqb_spec a b); [reflexivity|].
  destruct (Z.ltb_spec a b), (Z.ltb_spec b a); try reflexivity; lia.
Qed.

(** Trading guess and target keeps the five equality verdicts and turns
    each directional verdict into its opposite. *)
Theorem feedback_swapped (g t : Pokemon) :
  generateFeedback t g =
  let f := generateFeedback g t in
  {| fb_type1 := fb_type1 f;
     fb_type2 := fb_type2 f;
     fb_evolution_count := opposite (fb_evolution_count f);
     fb_is_final_evolution := fb_is_final_evolution f;
     fb_color := fb_color f;
     fb_habitat := fb_habitat f;
     fb_generation := opposite (fb_generation f) |}.
Proof.
  cbv zeta. unfold generateFeedback. simpl.
  rewrite (String.eqb_sym (pk_type1 t)), (String.eqb_sym (pk_color t)).
  rewrite (nullable_eqb_sym (pk_type2 t)), (nullable_eqb_sym (pk_habitat t)).
  rewrite (direction_opposite (pk_evolution_count g)).
  rewrite (direction_opposite (pk_generation g)).
  assert (Bool.eqb (pk_is_final_evolution t) (pk_is_final_evolution g)
          = Bool.eqb (pk_is_final_evolution g) (pk_is_final_evolution t)) as ->
    by (destruct (pk_is_final_evolution t), (pk_is_final_evolution g); reflexivity).
  reflexivity.
Qed.

(** Every feedback fits [guessFeedbackSchema]: the five equality fields
    are 'correct' or 'incorrect', the two directional fields are
    'correct', 'higher' or 'lower'. *)
Theorem feedback_fits_schema (g t : Pokemon) :
  let f := generateFeedback g t in
  match_verdict (fb_type1 f) /\ match_verdict (fb_type2 f) /\
  order_verdict (fb_evolution_count f) /\
  match_verdict (fb_is_final_evolution f) /\
  match_verdict (fb_color f) /\ match_verdict (fb_habitat f) /\
  order_verdict (fb_generation f).
Proof.
  cbv zeta. unfold generateFeedback, match_verdict, order_verdict. simpl.
  repeat split;
    repeat match goal with
           | |- context [if ?c then _ else _] => destruct c
           end; auto.
Qed.

(** The feedback is 'correct' on all seven fields exactly when guess and
    target coincide on the seven compared attributes; identifier, name
    and sprite play no part. *)
Theorem all_correct_iff_same_attributes (g t : Pokemon) :
  all_correct (generateFeedback g t) <-> same_attributes g t.
Proof.
  unfold all_correct, same_attributes, generateFeedback. simpl.
  rewrite <- !String.eqb_eq, <- !nullable_eqb_eq, <- !Z.eqb_eq.
  rewrite <- (Bool.eqb_true_iff (pk_is_final_evolution g)).
  destruct (String.eqb (pk_type1 g) (pk_type1 t)),
           (nullable_eqb (pk_type2 g) (pk_type2 t)),
           (pk_evolution_count g =? pk_evolution_count t),
           (Bool.eqb (pk_is_final_evolution g) (pk_is_final_evolution t)),
           (String.eqb (pk_color g) (pk_color t)),
           (nullable_eqb (pk_habitat g) (pk_habitat t)),
           (pk_generation g =? pk_generation t);
    try (split; [intros (?&?&?&?&?&?&?); discriminate|intros (?&?&?&?&?&?&?); discriminate]);
    try (destruct (pk_evolution_count g >? pk_evolution_count t));
    try (destruct (pk_generation g >? pk_generation t));
    split; intros (?&?&?&?&?&?&?); repeat split; congruence.
Qed.

(** ** Reading a session *)

(** [getGameSession] writes nothing, and the only error it throws is
    'Game session not found', thrown exactly when the session join has
    no row for the identifier; otherwise it returns a view of the first
    joined row. *)
Theorem getGameSession_reads_only (input : GetGameSessionInput) (db : DB) :
  snd (getGameSession input db) = db /\
  (find_session db (gi_session_id input) = None ->
   fst (getGameSession input db) = Thrown Game_session_not_found) /\
  (forall row, find_session db (gi_session_id input) = Some row ->
     exists v, fst (getGameSession input db) = Returned v
               /\ session v = sr_game_session row) /\
  (forall e, fst (getGameSession input db) = Thrown e -> e = Game_session_not_found).
Proof.
  unfold getGameSession, find_session, bind, select_session_with_target,
    select_guesses_with_pokemon, ret, throw.
  destruct (session_join db (gi_session_id input)) as [|row rest]; simpl.
  - repeat split; try reflexivity; try discriminate. now intros e [= <-].
  - repeat split; try discriminate.
    intros row' [= <-]. eexists. split; reflexivity.
Qed.

Lemma getGameSession_reads_only_example :
  exists v, fst (getGameSession view_example db_won) = Returned v
            /\ session v = example_session 6 1 true true (Some 5).
Proof.
  apply (proj1 (proj2 (proj2 (getGameSession_reads_only view_example db_won)))
           (mkSessionRow (example_session 6 1 true true (Some 5))
                         daily_pikachu pikachu)).
  reflexivity.
Defined.

(** ** What an accepted guess writes *)

Lemma map_flat_map {A B C} (h : B -> C) (g : A -> list B) (l : list A) :
  map h (flat_map g l) = flat_map (fun a => map h (g a)) l.
Proof.
  induction l as [|a l IH]; simpl; [reflexivity|].
  now rewrite map_app, IH.
Qed.

Lemma flat_map_map {A B C} (f : A -> B) (g : B -> list C) (l : list A) :
  flat_map g (map f l) = flat_map (fun a => g (f a)) l.
Proof.
  induction l as [|a l IH]; simpl; [reflexivity|]. now rewrite IH.
Qed.

(** The session join after an accepted guess: the rows it had, with the
    session part rewritten. *)
Lemma session_join_accepted now sid row guessed db :
  session_join (accepted_store now sid row guessed db) sid
  = map (fun r => mkSessionRow
                    (accepted_session now row guessed (sr_game_session r))
                    (sr_daily_pokemon r) (sr_pokemon r))
        (session_join db sid).
Proof.
  unfold session_join at 1.
  rewrite accepted_store_sessions_all.
  rewrite filter_rewritten by reflexivity.
  change (pokemonTable (accepted_store now sid row guessed db))
    with (pokemonTable db).
  change (dailyPokemonTable (accepted_store now sid row guessed db))
    with (dailyPokemonTable db).
  rewrite flat_map_map. unfold session_join.
  rewrite map_flat_map. apply flat_map_ext. intro s.
  rewrite map_flat_map. apply flat_map_ext. intro d.
  rewrite map_map. reflexivity.
Qed.

(** The rows of another session are read as before. *)
Lemma filter_other_session sid sid' (f : GameSession -> GameSession)
    (Hf : forall s, gs_session_id (f s) = gs_session_id s)
    (l : list GameSession) :
  sid' <> sid ->
  filter (fun s => String.eqb (gs_session_id s) sid')
         (map (fun s => if String.eqb (gs_session_id s) sid then f s else s) l)
  = filter (fun s => String.eqb (gs_session_id s) sid') l.
Proof.
  intro Hne. induction l as [|s l IH]; simpl; [reflexivity|].
  destruct (String.eqb_spec (gs_session_id s) sid) as [He|Hn].
  - rewrite Hf.
    assert (String.eqb (gs_session_id s) sid' = false) as ->
      by (apply String.eqb_neq; congruence).
    exact IH.
  - destruct (String.eqb (gs_session_id s) sid'); simpl; now rewrite IH.
Qed.

Lemma find_session_accepted now sid row guessed db :
  find_session db sid = Some row ->
  find_session (accepted_store now sid row guessed db) sid
  = Some (mkSessionRow (accepted_session now row guessed (sr_game_session row))
                       (sr_daily_pokemon row) (sr_pokemon row)).
Proof.
  unfold find_session. rewrite session_join_accepted.
  destruct (session_join db sid); simpl; [discriminate|]. now intros [= ->].
Qed.

(** Once a guess has completed the game, every further guess on that
    session, whatever the name and the time, throws 'Game session is
    already completed' and leaves the store as it is. *)
Theorem completed_session_rejects_guesses now input db v db' :
  makeGuess now input db = (Returned v, db') ->
  gs_is_completed (session v) = true ->
  forall now' name,
    makeGuess now' (mkMakeGuessInput (mg_session_id input) name) db'
    = (Thrown Game_session_is_already_completed, db').
Proof.
  intros H Hdone now' name.
  apply makeGuess_returned in H
    as [row [guessed [s0 [rest (Hrow & _ & _ & _ & _ & -> & ->)]]]].
  simpl in Hdone.
  eapply makeGuess_already_completed.
  - simpl. apply find_session_accepted. exact Hrow.
  - simpl. exact Hdone.
Qed.

Lemma completed_session_rejects_guesses_example :
  makeGuess 10 (mkMakeGuessInput "test-session-123" "charizard")
            (snd (makeGuess 9 guess_pikachu db_fresh))
  = (Thrown Game_session_is_already_completed,
     snd (makeGuess 9 guess_pikachu db_fresh)).
Proof.
  eapply (completed_session_rejects_guesses 9 guess_pikachu db_fresh).
  - vm_compute. reflexivity.
  - reflexivity.
Defined.

(** [makeGuess] never touches the catalog, the daily targets or the
    identity columns of a session (id, session_id, daily_pokemon_id,
    max_guesses, created_at), and never removes or rewrites a guess row:
    when it throws, the guess table is as before; when it returns, one
    row is appended, for this session, numbered with the session's new
    count of guesses, flagged correct exactly when the session is won. *)
Theorem makeGuess_writes now input db :
  let db' := snd (makeGuess now input db) in
  pokemonTable db' = pokemonTable db /\
  dailyPokemonTable db' = dailyPokemonTable db /\
  map session_identity (gameSessionTable db')
    = map session_identity (gameSessionTable db) /\
  match fst (makeGuess now input db) with
  | Thrown _ => gameGuessTable db' = gameGuessTable db
  | Returned v =>
    exists g, gameGuessTable db' = (gameGuessTable db ++ [g])%list /\
              gg_session_id g = mg_session_id input /\
              gg_guess_number g = gs_current_guesses (session v) /\
              gg_is_correct g = gs_is_won (session v) /\
              gg_created_at g = now
  end.
Proof.
  cbv zeta.
  destruct (makeGuess_outcome now input db)
    as [[e [-> _]]|[row [guessed [s0 [rest (_ & _ & _ & _ & _ & ->)]]]]].
  - simpl. repeat split.
  - simpl fst. simpl snd.
    split; [reflexivity|]. split; [reflexivity|]. split.
    + rewrite accepted_store_sessions_all, map_map. apply map_ext.
      intro s. now destruct (String.eqb (gs_session_id s) (mg_session_id input)).
    + eexists. split; [reflexivity|]. repeat split.
Qed.

(** ** Sessions do not interfere *)

Lemma session_join_other now sid row guessed db sid' :
  sid' <> sid ->
  session_join (accepted_store now sid row guessed db) sid' = session_join db sid'.
Proof.
  intro Hne. unfold session_join.
  rewrite accepted_store_sessions_all.
  rewrite filter_other_session by (reflexivity || assumption).
  reflexivity.
Qed.

Lemma guess_join_other now sid row guessed db sid' :
  sid' <> sid ->
  guess_join (accepted_store now sid row guessed db) sid' = guess_join db sid'.
Proof.
  intro Hne. unfold guess_join, accepted_store, guess_recorded.
  cbn [insert_game_guess update_game_session snd gameGuessTable pokemonTable].
  rewrite filter_app. cbn [filter gg_session_id].
  assert (String.eqb sid sid' = false) as ->
    by (apply String.eqb_neq; congruence).
  now rewrite app_nil_r.
Qed.

(** The view depends on the store through the two joins only. *)
Lemma getGameSession_by_joins input db1 db2 :
  session_join db1 (gi_session_id input) = session_join db2 (gi_session_id input) ->
  guess_join db1 (gi_session_id input) = guess_join db2 (gi_session_id input) ->
  fst (getGameSession input db1) = fst (getGameSession input db2).
Proof.
  intros Hs Hg.
  unfold getGameSession, bind, select_session_with_target,
    select_guesses_with_pokemon, ret, throw.
  rewrite Hs.
  destruct (session_join db2 (gi_session_id input)); [reflexivity|].
  cbv beta iota zeta. rewrite Hg. reflexivity.
Qed.

(** A guess in one session, accepted or not, leaves the view of every
    other session as it was. *)
Theorem other_sessions_unaffected now input db other :
  gi_session_id other <> mg_session_id input ->
  fst (getGameSession other (snd (makeGuess now input db)))
  = fst (getGameSession other db).
Proof.
  intro Hne.
  destruct (makeGuess_outcome now input db)
    as [[e [-> _]]|[row [guessed [s0 [rest (_ & _ & _ & _ & _ & ->)]]]]];
    [reflexivity|].
  simpl snd.
  apply getGameSession_by_joins;
    [now apply session_join_other|now apply guess_join_other].
Qed.

Lemma other_sessions_unaffected_example :
  fst (getGameSession view_second (snd (makeGuess 9 guess_pikachu db_two_sessions)))
  = fst (getGameSession view_second db_two_sessions).
Proof.
  apply (other_sessions_unaffected 9 guess_pikachu db_two_sessions view_second).
  simpl. discriminate.
Defined.

(** ** A guess, then a look at the session *)

Lemma getGameSession_found input db row :
  find_session db (gi_session_id input) = Some row ->
  getGameSession input db =
    (Returned
       {| session := sr_game_session row;
          target_pokemon :=
            if gs_is_completed (sr_game_session row)
            then Some (sr_pokemon row) else None;
          guesses :=
            sort by_guess_number
              (map (fun result =>
                      mkGuessEntry (gr_game_guess result) (gr_pokemon result)
                        (generateFeedback (gr_pokemon result) (sr_pokemon row)))
                   (guess_join db (gi_session_id input)));
          can_guess :=
            negb (gs_is_completed (sr_game_session row))
            && (gs_current_guesses (sr_game_session row)
                <? gs_max_guesses (sr_game_session row)) |},
     db).
Proof.
  unfold getGameSession, find_session, bind, select_session_with_target,
    select_guesses_with_pokemon, ret, throw.
  destruct (session_join db (gi_session_id input)); [discriminate|].
  now intros [= ->].
Qed.

Lemma stored_first_is_read db sid row s0 rest :
  unique_session_ids db ->
  find_session db sid = Some row ->
  stored_sessions db sid = s0 :: rest ->
  s0 = sr_game_session row.
Proof.
  intros Huniq Hrow Hst.
  assert (In s0 (stored_sessions db sid)) as Hin by (rewrite Hst; now left).
  apply filter_In in Hin as [Hin He]. apply String.eqb_eq in He.
  now apply (the_stored_session db sid).
Qed.

Lemma not_complete_has_budget row guessed :
  guess_isGameComplete row guessed = false ->
  guess_newGuessNumber row < gs_max_guesses (sr_game_session row).
Proof.
  unfold guess_isGameComplete. intro H.
  apply orb_false_iff in H as [_ H].
  rewrite Z.geb_leb in H. now apply Z.leb_gt in H.
Qed.

(** With session identifiers naming one session, the view [makeGuess]
    returns and the view [getGameSession] returns right after it show
    the same session, the same target (hidden or revealed), the same
    [can_guess] and the same guesses with the same feedback, the second
    in sequence order. *)
Theorem view_after_guess_agrees now input db v db' :
  unique_session_ids db ->
  makeGuess now input db = (Returned v, db') ->
  exists v',
    getGameSession (mkGetGameSessionInput (mg_session_id input)) db'
      = (Returned v', db') /\
    session v' = session v /\
    target_pokemon v' = target_pokemon v /\
    can_guess v' = can_guess v /\
    Permutation (guesses v') (guesses v) /\
    Sorted number_le (guesses v').
Proof.
  intros Huniq H.
  apply makeGuess_returned in H
    as [row [guessed [s0 [rest (Hrow & _ & _ & _ & Hst & -> & ->)]]]].
  assert (s0 = sr_game_session row) as -> by (eapply stored_first_is_read; eauto).
  eexists. split.
  { apply getGameSession_found. cbn [gi_session_id].
    apply find_session_accepted. exact Hrow. }
  cbn [session target_pokemon can_guess guesses accepted_view sr_game_session
       sr_pokemon gi_session_id].
  split; [reflexivity|]. split; [reflexivity|]. split.
  { unfold accepted_session.
    cbn [set_progress gs_is_completed gs_current_guesses gs_max_guesses].
    destruct (guess_isGameComplete row guessed) eqn:Hdone; [reflexivity|].
    simpl. apply Z.ltb_lt. exact (not_complete_has_budget row guessed Hdone). }
  split; [|apply sort_sorted].
  eapply perm_trans; [apply sort_perm|].
  erewrite map_ext; [apply Permutation_refl|].
  intro r. simpl. now rewrite feedback_same.
Qed.

Lemma view_after_guess_agrees_example :
  exists v',
    getGameSession (mkGetGameSessionInput "test-session-123")
                   (snd (makeGuess 9 guess_charizard db_last_chance))
      = (Returned v', snd (makeGuess 9 guess_charizard db_last_chance)) /\
    session v' = example_session 2 2 true false (Some 9) /\
    target_pokemon v' = Some pikachu /\
    can_guess v' = false.
Proof.
  edestruct (view_after_guess_agrees 9 guess_charizard db_last_chance)
    as [v' (Hrun & Hs & Ht & Hc & _)].
  - unfold unique_session_ids. simpl. constructor; [intros []|constructor].
  - vm_compute. reflexivity.
  - exists v'. repeat split; assumption.
Defined.

(** ** The guess-limit guard *)

(** In a store whose sessions, each named by its identifier, have
    guesses left whenever they are not completed, [makeGuess] never
    throws 'Maximum guesses reached', and the store it leaves behind is
    again such a store. *)
Theorem guess_limit_guard_unreachable now input db :
  unique_session_ids db ->
  active_has_budget db ->
  (forall db', makeGuess now input db <> (Thrown Maximum_guesses_reached, db')) /\
  active_has_budget (snd (makeGuess now input db)).
Proof.
  intros Huniq Hbudget. split.
  - intros db' H.
    destruct (find_session db (mg_session_id input)) as [row|] eqn:Hrow.
    2:{ rewrite makeGuess_not_found in H by assumption. discriminate. }
    destruct (gs_is_completed (sr_game_session row)) eqn:Hc.
    { rewrite (makeGuess_already_completed now input db row) in H by assumption.
      discriminate. }
    assert (gs_current_guesses (sr_game_session row)
            < gs_max_guesses (sr_game_session row)) as Hlt.
    { apply Hbudget; [|assumption].
      now apply (find_session_stored db (mg_session_id input) row). }
    destruct (resolve_candidate db (pokemon_name input)) as [guessed|] eqn:Hg.
    2:{ rewrite (makeGuess_unknown_candidate now input db row) in H by assumption.
        discriminate. }
    destruct (makeGuess_accepted now input db row Hrow Hc Hlt guessed Hg)
      as [s0 [rest [_ Heq]]].
    rewrite Heq in H. discriminate.
  - destruct (makeGuess_outcome now input db)
      as [[e [-> _]]|[row [guessed [s0 [rest (Hrow & _ & _ & _ & _ & ->)]]]]];
      [exact Hbudget|].
    simpl snd. intros s' Hs'.
    rewrite accepted_store_sessions_all in Hs'.
    apply in_map_iff in Hs' as [s [<- Hs]].
    destruct (String.eqb_spec (gs_session_id s) (mg_session_id input)) as [He|Hne];
      [|now apply Hbudget].
    assert (s = sr_game_session row) as ->
      by (now apply (the_stored_session db (mg_session_id input))).
    simpl. apply not_complete_has_budget.
Qed.

Lemma db_fresh_has_budget : active_has_budget db_fresh.
Proof. intros s [<-|[]] _. simpl. lia. Defined.

Lemma guess_limit_guard_unreachable_example :
  (forall db', makeGuess 9 guess_charizard db_fresh
               <> (Thrown Maximum_guesses_reached, db')) /\
  active_has_budget (snd (makeGuess 9 guess_charizard db_fresh)).
Proof.
  apply (guess_limit_guard_unreachable 9 guess_charizard db_fresh).
  - exact (proj1 db_fresh_well_formed).
  - exact db_fresh_has_budget.
Defined.

(** ** References to the catalog *)

Lemma resolve_candidate_in db name p :
  resolve_candidate db name = Some p ->
  In p (pokemonTable db) /\ pk_name p = toLowerCase name.
Proof.
  unfold resolve_candidate. intro H.
  assert (In p (filter (fun q => String.eqb (pk_name q) (toLowerCase name))
                       (pokemonTable db))) as Hin.
  { destruct (filter _ (pokemonTable db)); simpl in H; [discriminate|].
    injection H as ->. now left. }
  apply filter_In in Hin as [Hin He]. apply String.eqb_eq in He. now split.
Qed.



(** ** The history a view lists *)

Lemma no_catalog_row (i : Z) (l : list Pokemon) :
  (forall q, In q l -> pk_id q <> i) ->
  filter (fun q => i =? pk_id q) l = [].
Proof.
  induction l as [|x l IH]; simpl; intro H; [reflexivity|].
  destruct (Z.eqb_spec i (pk_id x)) as [He|_].
  - exfalso. apply (H x); [now left|congruence].
  - apply IH. intros q Hq. apply H. now right.
Qed.

(** A primary key finds one row. *)
Lemma one_catalog_row (l : list Pokemon) (p : Pokemon) :
  NoDup (map pk_id l) -> In p l ->
  filter (fun q => pk_id p =? pk_id q) l = [p].
Proof.
  induction l as [|x l IH]; simpl; [intros _ []|].
  intros Hnd Hin. inversion Hnd as [|? ? Hnotin Hnd']; subst.
  destruct Hin as [->|Hin].
  - rewrite Z.eqb_refl. f_equal. apply no_catalog_row.
    intros q Hq He. apply Hnotin. rewrite <- He. now apply in_map.
  - destruct (Z.eqb_spec (pk_id p) (pk_id x)) as [He|_]; [|now apply IH].
    exfalso. apply Hnotin. rewrite <- He. now apply in_map.
Qed.

(** With a keyed catalog that every guess row refers to, the guess join
    has one row per stored guess of the session, in storage order. *)
Lemma guess_join_complete db sid :
  unique_pokemon_ids db -> guesses_reference_catalog db ->
  map gr_game_guess (guess_join db sid) = stored_guesses db sid.
Proof.
  intros Huniq Href. unfold guess_join, stored_guesses.
  assert (forall g, In g (filter (fun g => String.eqb (gg_session_id g) sid)
                                 (gameGuessTable db)) ->
                    In g (gameGuessTable db)) as Hsub
    by (intros g Hg; now apply filter_In in Hg).
  induction (filter (fun g => String.eqb (gg_session_id g) sid) (gameGuessTable db))
    as [|g l IH]; simpl; [reflexivity|].
  destruct (Href g) as [p [Hp Hid]]; [apply Hsub; now left|].
  rewrite <- Hid, (one_catalog_row _ p Huniq Hp). simpl.
  f_equal. apply IH. intros g' Hg'. apply Hsub. now right.
Qed.

Lemma sorted_numbers (l : list GuessEntry) :
  Sorted number_le l ->
  Sorted Z.le (map (fun e => gg_guess_number (ge_guess e)) l).
Proof.
  induction 1 as [|x l Hs IH Hhd]; simpl; constructor; [exact IH|].
  destruct Hhd; simpl; constructor. assumption.
Qed.

Lemma strictly_sorted (l : list Z) :
  Sorted Z.le l -> NoDup l -> StronglySorted Z.lt l.
Proof.
  intros Hs Hnd. apply Sorted_StronglySorted in Hs; [|intros x y z; lia].
  induction Hs as [|x l Hs IH Hall]; constructor.
  - apply IH. now inversion Hnd.
  - inversion Hnd as [|? ? Hnotin _]; subst.
    rewrite Forall_forall in *. intros y Hy.
    specialize (Hall y Hy).
    assert (x <> y) by (intros ->; contradiction). lia.
Qed.

(** Two strictly increasing lists with the same members are the same
    list. *)
Lemma strictly_sorted_unique (l1 l2 : list Z) :
  StronglySorted Z.lt l1 -> StronglySorted Z.lt l2 ->
  (forall k, In k l1 <-> In k l2) -> l1 = l2.
Proof.
  intro H1. revert l2.
  induction H1 as [|a1 l1 Hs1 IH Hall1]; intros l2 H2 Hsame.
  - destruct l2 as [|a2 l2]; [reflexivity|].
    exfalso. apply (Hsame a2). now left.
  - destruct H2 as [|a2 l2 Hs2 Hall2].
    + exfalso. apply (Hsame a1). now left.
    + rewrite Forall_forall in Hall1, Hall2.
      assert (a1 = a2) as ->.
      { destruct (proj1 (Hsame a1) (or_introl eq_refl)) as [->|Hin1];
          [reflexivity|].
        destruct (proj2 (Hsame a2) (or_introl eq_refl)) as [->|Hin2];
          [reflexivity|].
        specialize (Hall2 _ Hin1). specialize (Hall1 _ Hin2). lia. }
      f_equal. apply IH; [exact Hs2|].
      intro k. split; intro Hk.
      * destruct (proj1 (Hsame k) (or_intror Hk)) as [<-|Hin]; [|exact Hin].
        specialize (Hall1 _ Hk). lia.
      * destruct (proj2 (Hsame k) (or_intror Hk)) as [<-|Hin]; [|exact Hin].
        specialize (Hall2 _ Hk). lia.
Qed.

Lemma in_numbers_upto (n k : Z) : In k (numbers_upto n) <-> 1 <= k <= n.
Proof.
  unfold numbers_upto. rewrite in_map_iff. split.
  - intros [i [<- Hi]]. apply in_seq in Hi. lia.
  - intro Hk. exists (Z.to_nat k). split; [lia|]. apply in_seq. lia.
Qed.

Lemma numbers_from_sorted (len start : nat) :
  StronglySorted Z.lt (map Z.of_nat (seq start len)).
Proof.
  revert start. induction len as [|len IH]; intro start; simpl; constructor.
  - apply IH.
  - apply Forall_forall. intros k Hk.
    apply in_map_iff in Hk as [i [<- Hi]]. apply in_seq in Hi. lia.
Qed.

(** A list holding exactly 1..n, each once, in non-decreasing order, is
    the list 1, 2, ..., n. *)
Lemma dense_sorted_is_numbers_upto (l : list Z) (n : Z) :
  dense l n -> Sorted Z.le l -> l = numbers_upto n.
Proof.
  intros [Hnd Hin] Hs.
  apply strictly_sorted_unique.
  - now apply strictly_sorted.
  - apply numbers_from_sorted.
  - intro k. now rewrite Hin, in_numbers_upto.
Qed.

Lemma dense_permutation (l l' : list Z) (n : Z) :
  Permutation l l' -> dense l n -> dense l' n.
Proof.
  intros Hp [Hnd Hin]. split.
  - now apply (Permutation_NoDup Hp).
  - intro k. rewrite <- Hin. split; apply Permutation_in;
      [now apply Permutation_sym|assumption].
Qed.

(** In a store that satisfies the session invariant, has a keyed catalog
    and guess rows that all name catalog rows, the view of
    [getGameSession] lists the guesses numbered 1, 2, ...,
    current_guesses, in this order, one entry for each, whatever the
    order of the guess rows in the store. *)
Theorem getGameSession_lists_full_history input db v db' :
  store_invariant db ->
  unique_pokemon_ids db ->
  guesses_reference_catalog db ->
  getGameSession input db = (Returned v, db') ->
  view_guess_numbers v = numbers_upto (gs_current_guesses (session v)).
Proof.
  intros Hinv Huniq Href H.
  apply getGameSession_returned in H as [row (Hrow & _ & ->)].
  apply find_session_stored in Hrow as [Hin Hsid].
  destruct (Hinv _ Hin) as (_ & _ & _ & Hdense). rewrite Hsid in Hdense.
  unfold view_guess_numbers. cbn [guesses session].
  apply dense_sorted_is_numbers_upto; [|apply sorted_numbers, sort_sorted].
  eapply dense_permutation; [|exact Hdense].
  eapply perm_trans; [|apply Permutation_sym, Permutation_map, sort_perm].
  rewrite map_map. cbn [ge_guess].
  unfold guess_numbers. fold (stored_guesses db (gi_session_id input)).
  rewrite <- (guess_join_complete db (gi_session_id input) Huniq Href).
  rewrite map_map. apply Permutation_refl.
Qed.

Lemma db_reordered_invariant : store_invariant db_reordered.
Proof.
  intros s [<-|[]]. unfold session_invariant, dense. simpl.
  split; [lia|]. split; [discriminate|]. split; [split; congruence|].
  split.
  - apply NoDup_cons; [simpl; intros [H|[]]; discriminate H|].
    apply NoDup_cons; [intros []|apply NoDup_nil].
  - intro k. lia.
Defined.

Lemma db_reordered_catalog :
  unique_pokemon_ids db_reordered /\ guesses_reference_catalog db_reordered.
Proof.
  split.
  - unfold unique_pokemon_ids. simpl.
    apply NoDup_cons; [simpl; intros [H|[]]; discriminate H|].
    apply NoDup_cons; [intros []|apply NoDup_nil].
  - intros g [<-|[<-|[]]]; exists charizard; simpl; auto.
Defined.

Lemma getGameSession_lists_full_history_example :
  exists v, getGameSession view_example db_reordered = (Returned v, db_reordered)
            /\ view_guess_numbers v = numbers_upto 2.
Proof.
  eexists. split; [vm_compute; reflexivity|].
  eapply (getGameSession_lists_full_history view_example db_reordered).
  - exact db_reordered_invariant.
  - exact (proj1 db_reordered_catalog).
  - exact (proj2 db_reordered_catalog).
  - vm_compute. reflexivity.
Defined.

(** ** Spelling of the guessed name *)

Lemma ascii_toLowerCase_idempotent (c : ascii) :
  ascii_toLowerCase (ascii_toLowerCase c) = ascii_toLowerCase c.
Proof.
  destruct c as [b0 b1 b2 b3 b4 b5 b6 b7].
  destruct b0, b1, b2, b3, b4, b5, b6, b7; reflexivity.
Qed.

Lemma toLowerCase_idempotent (s : string) :
  toLowerCase (toLowerCase s) = toLowerCase s.
Proof.
  induction s as [|c s IH]; simpl; [reflexivity|].
  now rewrite ascii_toLowerCase_idempotent, IH.
Qed.

(** The guessed name is looked up in lower case: a guess spelled in any
    mix of cases has the outcome of the same guess spelled in lower
    case, and the catalog row a name resolves to has a name that lower
    casing leaves unchanged, so a row stored with a capital letter in
    its name is never resolved. *)
Theorem guess_looked_up_in_lower_case now sid name db :
  makeGuess now (mkMakeGuessInput sid (toLowerCase name)) db
  = makeGuess now (mkMakeGuessInput sid name) db
  /\ forall p, resolve_candidate db name = Some p ->
               toLowerCase (pk_name p) = pk_name p.
Proof.
  split.
  - unfold makeGuess. cbn [mg_session_id pokemon_name].
    now rewrite toLowerCase_idempotent.
  - intros p Hp. apply resolve_candidate_in in Hp as [_ ->].
    apply toLowerCase_idempotent.
Qed.

Lemma guess_looked_up_in_lower_case_example :
  makeGuess 9 (mkMakeGuessInput "test-session-123" "charizard") db_fresh
  = makeGuess 9 (mkMakeGuessInput "test-session-123" "ChariZard") db_fresh
  /\ toLowerCase (pk_name charizard) = pk_name charizard.
Proof.
  split.
  - exact (proj1 (guess_looked_up_in_lower_case
                    9 "test-session-123" "ChariZard" db_fresh)).
  - apply (proj2 (guess_looked_up_in_lower_case
                    9 "test-session-123" "ChariZard" db_fresh)).
    reflexivity.
Defined.

(** ** Evolution chains *)

Import GetDailyPokemon.

(** The name list of a node, with its loop named. *)
Lemma names_cons name e rest :
  getAllPokemonInChain (ChainNode name (e :: rest))
  = name :: (getAllPokemonInChain e
             ++ tl (getAllPokemonInChain (ChainNode name rest)))%list.
Proof. reflexivity. Qed.

Lemma names_not_empty node : getAllPokemonInChain node <> [].
Proof. destruct node. discriminate. Qed.

(** A position found from a non-negative depth is at that depth or
    deeper. *)
Lemma findPokemonPosition_range node target :
  forall depth, 0 <= depth ->
    GetAllPokemon.findPokemonPosition node target depth = -1
    \/ depth <= GetAllPokemon.findPokemonPosition node target depth.
Proof.
  induction node as [name evolutions IH] using EvolutionChainNode_forall_ind.
  intros depth Hd. simpl.
  destruct (String.eqb (toLowerCase name) (toLowerCase target)); [right; lia|].
  induction IH as [|e rest He _ IHrest]; [now left|].
  destruct (He (depth + 1)) as [Hr|Hr]; [lia| |].
  - rewrite Hr. simpl. exact IHrest.
  - destruct (Z.eqb_spec (GetAllPokemon.findPokemonPosition e target (depth + 1)) (-1))
      as [Hm|_]; simpl; [exact IHrest|right; lia].
Qed.

(** [getEvolutionCount] is never negative, so the [Math.max(0, ...)]
    that [syncPokemonData] applies before storing it changes nothing. *)
Theorem getEvolutionCount_not_negative chain name :
  0 <= GetAllPokemon.getEvolutionCount chain name
  /\ GetAllPokemon.stored_evolution_count chain name
     = GetAllPokemon.getEvolutionCount chain name.
Proof.
  assert (0 <= GetAllPokemon.getEvolutionCount chain name) as H.
  { unfold GetAllPokemon.getEvolutionCount.
    destruct (findPokemonPosition_range chain name 0 (Z.le_refl 0)) as [->|Hr];
      [simpl; lia|].
    destruct (GetAllPokemon.findPokemonPosition chain name 0 =? -1); lia. }
  split; [exact H|]. unfold GetAllPokemon.stored_evolution_count. lia.
Qed.

(** *** A name the chain does not hold *)

Lemma findPokemonPosition_absent node target :
  ~ In (toLowerCase target) (map toLowerCase (getAllPokemonInChain node)) ->
  forall depth, GetAllPokemon.findPokemonPosition node target depth = -1.
Proof.
  induction node as [name evolutions IH] using EvolutionChainNode_forall_ind.
  intros Habs depth. simpl.
  destruct (String.eqb_spec (toLowerCase name) (toLowerCase target)) as [He|_].
  { exfalso. apply Habs. simpl. now left. }
  assert (~ In (toLowerCase target)
            (map toLowerCase (tl (getAllPokemonInChain (ChainNode name evolutions)))))
    as Hrest by (intro; apply Habs; simpl; now right).
  clear Habs. revert Hrest.
  induction IH as [|e rest He _ IHrest]; intro Hrest; [reflexivity|].
  rewrite names_cons in Hrest. simpl tl in Hrest.
  rewrite map_app, in_app_iff in Hrest.
  rewrite He by tauto. simpl. apply IHrest. tauto.
Qed.

Lemma isFinal_findInChain_absent node target :
  ~ In (toLowerCase target) (map toLowerCase (getAllPokemonInChain node)) ->
  GetAllPokemon.findInChain target node = false.
Proof.
  induction node as [name evolutions IH] using EvolutionChainNode_forall_ind.
  intros Habs. simpl.
  destruct (String.eqb_spec (toLowerCase name) (toLowerCase target)) as [He|_].
  { exfalso. apply Habs. simpl. now left. }
  assert (~ In (toLowerCase target)
            (map toLowerCase (tl (getAllPokemonInChain (ChainNode name evolutions)))))
    as Hrest by (intro; apply Habs; simpl; now right).
  clear Habs. revert Hrest.
  induction IH as [|e rest He _ IHrest]; intro Hrest; [reflexivity|].
  rewrite names_cons in Hrest. simpl tl in Hrest.
  rewrite map_app, in_app_iff in Hrest.
  rewrite He by tauto. simpl. apply IHrest. tauto.
Qed.

Lemma info_findInChain_absent node target :
  ~ In target (getAllPokemonInChain node) ->
  forall depth, SyncPokemonData.findInChain target node depth = None.
Proof.
  induction node as [name evolutions IH] using EvolutionChainNode_forall_ind.
  intros Habs depth. simpl.
  destruct (String.eqb_spec name target) as [He|_].
  { exfalso. apply Habs. simpl. now left. }
  assert (~ In target (tl (getAllPokemonInChain (ChainNode name evolutions))))
    as Hrest by (intro; apply Habs; simpl; now right).
  clear Habs. revert Hrest.
  induction IH as [|e rest He _ IHrest]; intro Hrest; [reflexivity|].
  rewrite names_cons in Hrest. simpl tl in Hrest.
  rewrite in_app_iff in Hrest.
  rewrite He by tauto. apply IHrest. tauto.
Qed.

Lemma findIndex_from_absent (target : string) (l : list string) :
  ~ In target l ->
  forall i, findIndex_from (fun name => String.eqb name target) i l = -1.
Proof.
  induction l as [|x l IH]; intros Habs i; simpl; [reflexivity|].
  destruct (String.eqb_spec x target) as [He|_].
  - exfalso. apply Habs. now left.
  - apply IH. intro. apply Habs. now right.
Qed.

(** For a name that no species of the chain carries, in any spelling of
    cases, the three implementations record different things:
    get_all_pokemon.ts depth 0 and not final, sync_pokemon_data.ts depth
    0 and final, get_daily_pokemon.ts depth -1 and not final. *)
Theorem absent_name_defaults chain name :
  ~ In (toLowerCase name) (map toLowerCase (getAllPokemonInChain chain)) ->
  GetAllPokemon.getEvolutionCount chain name = 0 /\
  GetAllPokemon.isFinalEvolution chain name = false /\
  SyncPokemonData.getEvolutionInfo chain name
    = SyncPokemonData.mkEvolutionInfo 0 true /\
  getEvolutionData chain name = mkEvolutionData (-1) false.
Proof.
  intro Habs.
  assert (~ In name (getAllPokemonInChain chain)) as Hexact
    by (intro Hin; apply Habs; now apply in_map).
  split; [|split; [|split]].
  - unfold GetAllPokemon.getEvolutionCount.
    now rewrite findPokemonPosition_absent.
  - now apply isFinal_findInChain_absent.
  - unfold SyncPokemonData.getEvolutionInfo.
    now rewrite info_findInChain_absent.
  - unfold getEvolutionData, findIndex.
    rewrite findIndex_from_absent by assumption.
    f_equal. apply Z.eqb_neq.
    pose proof (names_not_empty chain).
    destruct (getAllPokemonInChain chain); [contradiction|].
    cbn [List.length]. lia.
Qed.

Lemma absent_name_defaults_example :
  GetAllPokemon.getEvolutionCount eevee_chain "mew" = 0 /\
  GetAllPokemon.isFinalEvolution eevee_chain "mew" = false /\
  SyncPokemonData.getEvolutionInfo eevee_chain "mew"
    = SyncPokemonData.mkEvolutionInfo 0 true /\
  getEvolutionData eevee_chain "mew" = mkEvolutionData (-1) false.
Proof.
  apply (absent_name_defaults eevee_chain "mew").
  simpl. intros [H|[H|[H|[H|[]]]]]; discriminate H.
Defined.

(** *** Depth by two implementations *)

Lemma info_count_range target node :
  forall depth r,
    SyncPokemonData.findInChain target node depth = Some r ->
    depth <= SyncPokemonData.count r.
Proof.
  induction node as [name evolutions IH] using EvolutionChainNode_forall_ind.
  intros depth r. simpl.
  destruct (String.eqb name target); [intros [= <-]; simpl; lia|].
  induction IH as [|e rest He _ IHrest]; [discriminate|].
  destruct (SyncPokemonData.findInChain target e (depth + 1)) as [r'|] eqn:Hr'.
  - intros [= <-]. apply He in Hr'. lia.
  - exact IHrest.
Qed.

Lemma position_is_info_count target node :
  toLowerCase target = target ->
  Forall (fun n => toLowerCase n = n) (getAllPokemonInChain node) ->
  forall depth, 0 <= depth ->
    GetAllPokemon.findPokemonPosition node target depth
    = match SyncPokemonData.findInChain target node depth with
      | Some r => SyncPokemonData.count r
      | None => -1
      end.
Proof.
  intro Ht.
  induction node as [name evolutions IH] using EvolutionChainNode_forall_ind.
  intros Hlow depth Hd. simpl.
  assert (toLowerCase name = name) as Hn by (now inversion Hlow).
  rewrite Hn, Ht.
  destruct (String.eqb name target); [reflexivity|].
  assert (Forall (fun n => toLowerCase n = n)
                 (tl (getAllPokemonInChain (ChainNode name evolutions))))
    as Hrest by (now inversion Hlow).
  clear Hlow Hn. revert Hrest.
  induction IH as [|e rest He _ IHrest]; intro Hrest; [reflexivity|].
  rewrite names_cons in Hrest. simpl tl in Hrest.
  apply Forall_app in Hrest as [Hlow_e Hlow_rest].
  rewrite He by (assumption || lia).
  destruct (SyncPokemonData.findInChain target e (depth + 1)) as [r|] eqn:Hr.
  - apply info_count_range in Hr.
    destruct (Z.eqb_spec (SyncPokemonData.count r) (-1)); [lia|reflexivity].
  - simpl. now apply IHrest.
Qed.

(** When the names of the chain and the name looked for are in lower
    case, as the species API gives them, [getEvolutionCount] of
    get_all_pokemon.ts and the count of [getEvolutionInfo] of
    sync_pokemon_data.ts are the same number. *)
Theorem evolution_counts_agree chain name :
  toLowerCase name = name ->
  Forall (fun n => toLowerCase n = n) (getAllPokemonInChain chain) ->
  GetAllPokemon.getEvolutionCount chain name
  = SyncPokemonData.count (SyncPokemonData.getEvolutionInfo chain name).
Proof.
  intros Ht Hlow.
  unfold GetAllPokemon.getEvolutionCount, SyncPokemonData.getEvolutionInfo.
  rewrite position_is_info_count by (assumption || lia).
  destruct (SyncPokemonData.findInChain name chain 0) as [r|] eqn:Hr;
    [|reflexivity].
  apply info_count_range in Hr.
  destruct (Z.eqb_spec (SyncPokemonData.count r) (-1)); [lia|reflexivity].
Qed.

Lemma evolution_counts_agree_example :
  GetAllPokemon.getEvolutionCount eevee_chain "jolteon"
  = SyncPokemonData.count (SyncPokemonData.getEvolutionInfo eevee_chain "jolteon").
Proof.
  apply (evolution_counts_agree eevee_chain "jolteon").
  - reflexivity.
  - simpl. repeat constructor.
Defined.

(** *** Position in the list of names *)

Lemma findIndex_from_present (target : string) (l : list string) :
  In target l ->
  forall i,
    let k := findIndex_from (fun name => String.eqb name target) i l in
    i <= k < i + Z.of_nat (List.length l)
    /\ nth_error l (Z.to_nat (k - i)) = Some target.
Proof.
  induction l as [|x l IH]; [intros []|].
  intros Hin i. cbv zeta. cbn [findIndex_from List.length].
  destruct (String.eqb_spec x target) as [->|Hne].
  - split; [lia|]. now rewrite Z.sub_diag.
  - destruct Hin as [He|Hin]; [contradiction|].
    destruct (IH Hin (i + 1)) as [Hrange Hnth].
    split; [lia|].
    replace (Z.to_nat (findIndex_from (fun name => String.eqb name target) (i + 1) l - i))
      with (S (Z.to_nat (findIndex_from (fun name => String.eqb name target) (i + 1) l
                         - (i + 1)))) by lia.
    exact Hnth.
Qed.

(** No position before the one [findIndex] returns holds the name. *)
Lemma findIndex_from_first (target : string) (l : list string) :
  forall i j,
    i <= j < findIndex_from (fun name => String.eqb name target) i l ->
    nth_error l (Z.to_nat (j - i)) <> Some target.
Proof.
  induction l as [|x l IH]; intros i j Hj.
  - destruct (Z.to_nat (j - i)); discriminate.
  - cbn [findIndex_from] in Hj.
    destruct (String.eqb_spec x target) as [He|Hne]; [lia|].
    destruct (Z.eq_dec j i) as [->|Hji].
    + rewrite Z.sub_diag. simpl. congruence.
    + replace (Z.to_nat (j - i)) with (S (Z.to_nat (j - (i + 1)))) by lia.
      simpl. apply IH. lia.
Qed.

(** For a name the chain holds, the [evolution_count] that
    [getEvolutionData] of get_daily_pokemon.ts computes is the position
    of the first occurrence of the name in the list of the chain's
    names, a species listed before its evolutions: it lies between 0 and
    the number of species less one, the name listed at that position is
    the name looked for, and no earlier position lists that name. *)
Theorem getEvolutionData_is_position chain name :
  In name (getAllPokemonInChain chain) ->
  let data := getEvolutionData chain name in
  0 <= evolution_count data < Z.of_nat (List.length (getAllPokemonInChain chain))
  /\ nth_error (getAllPokemonInChain chain) (Z.to_nat (evolution_count data))
     = Some name
  /\ forall j, 0 <= j < evolution_count data ->
               nth_error (getAllPokemonInChain chain) (Z.to_nat j) <> Some name.
Proof.
  intro Hin. cbv zeta. unfold getEvolutionData, findIndex. simpl.
  destruct (findIndex_from_present name _ Hin 0) as [Hrange Hnth].
  split; [lia|]. split; [now rewrite Z.sub_0_r in Hnth|].
  intros j Hj.
  pose proof (findIndex_from_first name (getAllPokemonInChain chain) 0 j Hj) as H.
  now rewrite Z.sub_0_r in H.
Qed.

Lemma getEvolutionData_is_position_example :
  let data := getEvolutionData eevee_chain "jolteon" in
  0 <= evolution_count data < 4
  /\ nth_error (getAllPokemonInChain eevee_chain) (Z.to_nat (evolution_count data))
     = Some "jolteon"
  /\ forall j, 0 <= j < evolution_count data ->
               nth_error (getAllPokemonInChain eevee_chain) (Z.to_nat j)
               <> Some "jolteon".
Proof.
  apply (getEvolutionData_is_position eevee_chain "jolteon").
  simpl. auto.
Defined.

(** *** Chains without branches *)

Lemma unbranched_index_is_depth target node :
  unbranched node ->
  forall depth,
    match SyncPokemonData.findInChain target node depth with
    | Some r =>
      findIndex_from (fun name => String.eqb name target) depth
                     (getAllPokemonInChain node) = SyncPokemonData.count r
      /\ SyncPokemonData.isFinal r
         = (SyncPokemonData.count r
            =? depth + Z.of_nat (List.length (getAllPokemonInChain node)) - 1)
    | None =>
      findIndex_from (fun name => String.eqb name target) depth
                     (getAllPokemonInChain node) = -1
    end.
Proof.
  induction node as [name evolutions IH] using EvolutionChainNode_forall_ind.
  intros Hun depth.
  destruct evolutions as [|e [|e' rest]]; [| |destruct Hun].
  - simpl. destruct (String.eqb name target); [|reflexivity].
    simpl. split; [reflexivity|]. symmetry. apply Z.eqb_eq. lia.
  - inversion IH as [|? ? He _]; subst.
    specialize (He Hun (depth + 1)).
    cbn [SyncPokemonData.findInChain getAllPokemonInChain findIndex_from].
    rewrite app_nil_r.
    destruct (String.eqb name target).
    + cbn [SyncPokemonData.count SyncPokemonData.isFinal List.length].
      split; [reflexivity|]. simpl negb. symmetry. apply Z.eqb_neq.
      pose proof (names_not_empty e).
      destruct (getAllPokemonInChain e); [contradiction|].
      cbn [List.length]. lia.
    + destruct (SyncPokemonData.findInChain target e (depth + 1)) as [r|].
      * destruct He as [Hidx Hfin]. split; [exact Hidx|].
        rewrite Hfin. cbn [List.length]. f_equal. lia.
      * exact He.
Qed.

(** On a chain without branches that holds the name, [getEvolutionData]
    of get_daily_pokemon.ts and [getEvolutionInfo] of
    sync_pokemon_data.ts compute the same depth and the same final
    flag. *)
Theorem unbranched_chain_data_agree chain name :
  unbranched chain ->
  In name (getAllPokemonInChain chain) ->
  evolution_count (getEvolutionData chain name)
    = SyncPokemonData.count (SyncPokemonData.getEvolutionInfo chain name)
  /\ is_final_evolution (getEvolutionData chain name)
    = SyncPokemonData.isFinal (SyncPokemonData.getEvolutionInfo chain name).
Proof.
  intros Hun Hin.
  pose proof (unbranched_index_is_depth name chain Hun 0) as H.
  destruct (findIndex_from_present name _ Hin 0) as [Hrange _].
  unfold getEvolutionData, SyncPokemonData.getEvolutionInfo, findIndex. simpl.
  destruct (SyncPokemonData.findInChain name chain 0) as [r|].
  - destruct H as [Hidx Hfin]. rewrite Hidx, Hfin. split; [reflexivity|].
    f_equal.
  - cbv zeta in Hrange. rewrite H in Hrange. lia.
Qed.

Lemma unbranched_chain_data_agree_example :
  evolution_count (getEvolutionData bulbasaur_chain "ivysaur")
    = SyncPokemonData.count (SyncPokemonData.getEvolutionInfo bulbasaur_chain "ivysaur")
  /\ is_final_evolution (getEvolutionData bulbasaur_chain "ivysaur")
    = SyncPokemonData.isFinal (SyncPokemonData.getEvolutionInfo bulbasaur_chain "ivysaur").
Proof.
  apply (unbranched_chain_data_agree bulbasaur_chain "ivysaur").
  - simpl. exact I.
  - simpl. auto.
Defined.

(** *** The final flag *)

Lemma final_forms_cons name e rest :
  final_forms (ChainNode name (e :: rest))
  = (final_forms e ++ flat_map final_forms rest)%list.
Proof.
  simpl. f_equal.
Qed.

Lemma isFinal_findInChain_sound target node :
  GetAllPokemon.findInChain target node = true ->
  In (toLowerCase target) (map toLowerCase (final_forms node)).
Proof.
  induction node as [name evolutions IH] using EvolutionChainNode_forall_ind.
  simpl GetAllPokemon.findInChain.
  destruct (String.eqb_spec (toLowerCase name) (toLowerCase target)) as [He|_].
  - intro H. apply Nat.eqb_eq in H.
    destruct evolutions; [|discriminate H]. simpl. now left.
  - intro H.
    assert (In (toLowerCase target)
               (map toLowerCase (flat_map final_forms evolutions))) as Hin.
    { revert H. induction IH as [|e rest He _ IHrest]; [discriminate|].
      simpl. rewrite map_app, in_app_iff.
      destruct (GetAllPokemon.findInChain target e); simpl; intro H.
      - left. now apply He.
      - right. now apply IHrest. }
    destruct evolutions as [|e rest]; [destruct Hin|].
    rewrite final_forms_cons. exact Hin.
Qed.

Lemma info_findInChain_sound target node :
  forall depth r,
    SyncPokemonData.findInChain target node depth = Some r ->
    SyncPokemonData.isFinal r = true ->
    In target (final_forms node).
Proof.
  induction node as [name evolutions IH] using EvolutionChainNode_forall_ind.
  intros depth r. simpl SyncPokemonData.findInChain.
  destruct (String.eqb_spec name target) as [->|_].
  - intros [= <-]. simpl. intro H. apply negb_true_iff in H.
    destruct evolutions; [simpl; now left|discriminate H].
  - intros H Hfin.
    assert (In target (flat_map final_forms evolutions)) as Hin.
    { revert H. induction IH as [|e rest He _ IHrest]; [discriminate|].
      simpl. rewrite in_app_iff.
      destruct (SyncPokemonData.findInChain target e (depth + 1)) as [r'|] eqn:Hr'.
      - intros [= ->]. left. now apply (He (depth + 1) r).
      - intro H. right. now apply IHrest. }
    destruct evolutions as [|e rest]; [destruct Hin|].
    rewrite final_forms_cons. exact Hin.
Qed.

Lemma info_findInChain_present target node :
  In target (getAllPokemonInChain node) ->
  forall depth, SyncPokemonData.findInChain target node depth <> None.
Proof.
  induction node as [name evolutions IH] using EvolutionChainNode_forall_ind.
  intros Hin depth. simpl SyncPokemonData.findInChain.
  destruct (String.eqb_spec name target) as [_|Hne]; [discriminate|].
  assert (In target (tl (getAllPokemonInChain (ChainNode name evolutions))))
    as Hrest by (destruct Hin; [contradiction|assumption]).
  clear Hin. revert Hrest.
  induction IH as [|e rest He _ IHrest]; intro Hrest; [destruct Hrest|].
  rewrite names_cons in Hrest. simpl tl in Hrest.
  apply in_app_iff in Hrest as [Hin|Hin].
  - specialize (He Hin (depth + 1)).
    destruct (SyncPokemonData.findInChain target e (depth + 1));
      [discriminate|contradiction].
  - destruct (SyncPokemonData.findInChain target e (depth + 1));
      [discriminate|now apply IHrest].
Qed.

(** A species flagged final is a species without evolutions:
    [isFinalEvolution] of get_all_pokemon.ts answers true only for a
    name that, cases apart, a species without evolutions carries, and so
    does [getEvolutionInfo] of sync_pokemon_data.ts, in the exact
    spelling, for a name the chain holds. *)
Theorem final_flag_sound chain name :
  (GetAllPokemon.isFinalEvolution chain name = true ->
   In (toLowerCase name) (map toLowerCase (final_forms chain)))
  /\
  (In name (getAllPokemonInChain chain) ->
   SyncPokemonData.isFinal (SyncPokemonData.getEvolutionInfo chain name) = true ->
   In name (final_forms chain)).
Proof.
  split; [apply isFinal_findInChain_sound|].
  intros Hin. unfold SyncPokemonData.getEvolutionInfo.
  pose proof (info_findInChain_present name chain Hin 0) as Hsome.
  destruct (SyncPokemonData.findInChain name chain 0) as [r|] eqn:Hr;
    [|contradiction].
  now apply (info_findInChain_sound name chain 0 r).
Qed.

Lemma final_flag_sound_example :
  In (toLowerCase "Jolteon") (map toLowerCase (final_forms eevee_chain))
  /\ In "venusaur" (final_forms bulbasaur_chain).
Proof.
  split.
  - apply (proj1 (final_flag_sound eevee_chain "Jolteon")). reflexivity.
  - apply (proj2 (final_flag_sound bulbasaur_chain "venusaur")).
    + simpl. auto.
    + reflexivity.
Defined.

(** ** The daily target *)

Lemma pokemon_eta (p : Pokemon) :
  {| pk_id := pk_id p; pk_name := pk_name p; pk_type1 := pk_type1 p;
     pk_type2 := pk_type2 p; pk_evolution_count := pk_evolution_count p;
     pk_is_final_evolution := pk_is_final_evolution p; pk_color := pk_color p;
     pk_habitat := pk_habitat p; pk_generation := pk_generation p;
     pk_sprite_url := pk_sprite_url p; pk_created_at := pk_created_at p |} = p.
Proof. destruct p. reflexivity. Qed.

Lemma no_daily_row (dateString : string) (l : list DailyPokemon) :
  (forall d, In d l -> dp_date d <> dateString) ->
  filter (fun d => String.eqb (dp_date d) dateString) l = [].
Proof.
  induction l as [|x l IH]; simpl; intro H; [reflexivity|].
  destruct (String.eqb_spec (dp_date x) dateString) as [He|_].
  - exfalso. apply (H x); [now left|assumption].
  - apply IH. intros d Hd. apply H. now right.
Qed.

Lemma one_daily_row (l : list DailyPokemon) (d : DailyPokemon) :
  NoDup (map dp_date l) -> In d l ->
  filter (fun d' => String.eqb (dp_date d') (dp_date d)) l = [d].
Proof.
  induction l as [|x l IH]; simpl; [intros _ []|].
  intros Hnd Hin. inversion Hnd as [|? ? Hnotin Hnd']; subst.
  destruct Hin as [->|Hin].
  - rewrite String.eqb_refl. f_equal.
    apply no_daily_row. intros d' Hd' He.
    apply Hnotin. rewrite <- He. now apply in_map.
  - destruct (String.eqb_spec (dp_date x) (dp_date d)) as [He|_]; [|now apply IH].
    exfalso. apply Hnotin. rewrite He. now apply in_map.
Qed.

Lemma session_join_row db sid row :
  In row (session_join db sid) ->
  In (sr_daily_pokemon row) (dailyPokemonTable db) /\
  In (sr_pokemon row) (pokemonTable db) /\
  dp_pokemon_id (sr_daily_pokemon row) = pk_id (sr_pokemon row).
Proof.
  unfold session_join. intro H.
  apply in_flat_map in H as [s [_ H]].
  apply in_flat_map in H as [d [Hd H]].
  apply in_map_iff in H as [p [<- Hp]]. simpl.
  apply filter_In in Hd as [Hd _].
  apply filter_In in Hp as [Hp He]. apply Z.eqb_eq in He.
  repeat split; assumption.
Qed.

(** With one daily target per date and a keyed catalog, the target of a
    session, the entity its view reveals once it is completed, is the
    Pokemon [getDailyPokemon] returns for the date of the session's
    daily row; [getDailyPokemon] leaves the store as it is. *)
Theorem session_target_is_daily_pokemon db sid row :
  unique_daily_dates db ->
  unique_pokemon_ids db ->
  find_session db sid = Some row ->
  getDailyPokemon (dp_date (sr_daily_pokemon row)) db = (inr (sr_pokemon row), db).
Proof.
  intros Hdates Hids Hrow.
  assert (In row (session_join db sid)) as Hin.
  { unfold find_session in Hrow.
    destruct (session_join db sid); simpl in Hrow; [discriminate|].
    injection Hrow as ->. now left. }
  apply session_join_row in Hin as (Hd & Hp & He).
  unfold getDailyPokemon, daily_join.
  rewrite (one_daily_row _ _ Hdates Hd). simpl.
  rewrite He, (one_catalog_row _ _ Hids Hp). simpl.
  now rewrite pokemon_eta.
Qed.

Lemma session_target_is_daily_pokemon_example :
  getDailyPokemon "2024-01-01" db_won = (inr pikachu, db_won).
Proof.
  apply (session_target_is_daily_pokemon db_won "test-session-123"
           (mkSessionRow (example_session 6 1 true true (Some 5))
                         daily_pikachu pikachu)).
  - unfold unique_daily_dates. simpl. constructor; [intros []|constructor].
  - unfold unique_pokemon_ids. simpl.
    apply NoDup_cons; [simpl; intros [H|[]]; discriminate H|].
    apply NoDup_cons; [intros []|apply NoDup_nil].
  - reflexivity.
Defined.

(** [getDailyPokemon] throws 'No daily Pokemon found' exactly when no
    daily row of the date names a row of the catalog -- also when the
    date has a daily row whose Pokemon is missing from the catalog --
    and what it returns otherwise is a catalog row named by a daily row
    of that date. *)
Theorem getDailyPokemon_outcome dateString db :
  snd (getDailyPokemon dateString db) = db /\
  (fst (getDailyPokemon dateString db) = inl (No_daily_Pokemon_found dateString)
   <-> forall d p, In d (dailyPokemonTable db) -> In p (pokemonTable db) ->
                   dp_date d = dateString -> dp_pokemon_id d <> pk_id p) /\
  (forall p, fst (getDailyPokemon dateString db) = inr p ->
     In p (pokemonTable db) /\
     exists d, In d (dailyPokemonTable db) /\ dp_date d = dateString
               /\ dp_pokemon_id d = pk_id p).
Proof.
  unfold getDailyPokemon.
  assert (forall d p, In (d, p) (daily_join db dateString) <->
                      In d (dailyPokemonTable db) /\ In p (pokemonTable db) /\
                      dp_date d = dateString /\ dp_pokemon_id d = pk_id p) as Hjoin.
  { intros d p. unfold daily_join. rewrite in_flat_map. split.
    - intros [d' [Hd' H]]. apply in_map_iff in H as [p' [[= -> ->] Hp]].
      apply filter_In in Hd' as [Hd He]. apply String.eqb_eq in He.
      apply filter_In in Hp as [Hp Hid]. apply Z.eqb_eq in Hid. tauto.
    - intros (Hd & Hp & He & Hid). exists d. split.
      + apply filter_In. split; [assumption|now apply String.eqb_eq].
      + apply in_map. apply filter_In. split; [assumption|now apply Z.eqb_eq]. }
  destruct (daily_join db dateString) as [|[d0 p0] rest].
  - split; [reflexivity|]. split; [|discriminate].
    split; [|reflexivity]. intros _ d p Hd Hp He Hid.
    apply (proj2 (Hjoin d p)). tauto.
  - split; [reflexivity|]. split.
    + split; [discriminate|]. intro H. exfalso.
      destruct (proj1 (Hjoin d0 p0) (or_introl eq_refl)) as (Hd & Hp & He & Hid).
      exact (H d0 p0 Hd Hp He Hid).
    + simpl. intros p [= <-]. rewrite pokemon_eta.
      destruct (proj1 (Hjoin d0 p0) (or_introl eq_refl)) as (Hd & Hp & He & Hid).
      split; [assumption|]. exists d0. tauto.
Qed.

Lemma getDailyPokemon_outcome_example :
  In pikachu (pokemonTable db_fresh) /\
  exists d, In d (dailyPokemonTable db_fresh) /\ dp_date d = "2024-01-01"
            /\ dp_pokemon_id d = pk_id pikachu.
Proof.
  apply (proj2 (proj2 (getDailyPokemon_outcome "2024-01-01" db_fresh))).
  reflexivity.
Defined.

(** ** The row of a correct guess *)

Lemma feedback_of_itself (A : Pokemon) : all_correct (generateFeedback A A).
Proof.
  unfold all_correct, generateFeedback; simpl.
  rewrite !String.eqb_refl, !nullable_eqb_refl, !Z.eqb_refl, Bool.eqb_reflx.
  repeat split.
Qed.

Lemma guess_join_row db sid r :
  In r (guess_join db sid) ->
  In (gr_pokemon r) (pokemonTable db)
  /\ gg_guessed_pokemon_id (gr_game_guess r) = pk_id (gr_pokemon r).
Proof.
  unfold guess_join. intro H.
  apply in_flat_map in H as [g [_ H]].
  apply in_map_iff in H as [p [<- Hp]]. simpl.
  apply filter_In in Hp as [Hp He]. apply Z.eqb_eq in He. now split.
Qed.

(** With a keyed catalog, every guess that the view of [getGameSession]
    lists and that names the target's row is shown with 'correct' on all
    seven fields. *)
Theorem target_guess_shown_all_correct input db v db' row :
  unique_pokemon_ids db ->
  getGameSession input db = (Returned v, db') ->
  find_session db (gi_session_id input) = Some row ->
  forall e, In e (guesses v) ->
    gg_guessed_pokemon_id (ge_guess e) = pk_id (sr_pokemon row) ->
    all_correct (ge_feedback e).
Proof.
  intros Hids H Hrow e He Hid.
  apply getGameSession_returned in H as [row' (Hrow' & _ & ->)].
  rewrite Hrow in Hrow'. injection Hrow' as <-.
  cbn [guesses] in He.
  apply (Permutation_in _ (sort_perm _)) in He.
  apply in_map_iff in He as [r [<- Hr]]. cbn [ge_guess ge_feedback] in *.
  apply guess_join_row in Hr as [Hp Hg].
  assert (In row (session_join db (gi_session_id input))) as Hin.
  { unfold find_session in Hrow.
    destruct (session_join db (gi_session_id input)); simpl in Hrow;
      [discriminate|]. injection Hrow as ->. now left. }
  apply session_join_row in Hin as (_ & Ht & _).
  assert (gr_pokemon r = sr_pokemon row) as ->.
  { apply (nodup_map_inj pk_id (pokemonTable db)); try assumption. congruence. }
  apply feedback_of_itself.
Qed.

Lemma target_guess_shown_all_correct_example :
  all_correct
    (ge_feedback (mkGuessEntry (mkGameGuess 1 "test-session-123" 1 1 true 5)
                               pikachu (generateFeedback pikachu pikachu))).
Proof.
  eapply (target_guess_shown_all_correct view_example db_won _ db_won
            (mkSessionRow (example_session 6 1 true true (Some 5))
                          daily_pikachu pikachu)).
  - unfold unique_pokemon_ids. simpl.
    apply NoDup_cons; [simpl; intros [H|[]]; discriminate H|].
    apply NoDup_cons; [intros []|apply NoDup_nil].
  - vm_compute. reflexivity.
  - reflexivity.
  - simpl. left. reflexivity.
  - reflexivity.
Defined.
